(** * yak-hole: the client API layer, the chat handlers and the retrieval core

    Shallow embedding of
      - [src/app/services/api.ts]   (the [ApiService] class and, in the same
        file, the React Native [ChatScreen] component),
      - [src/web/src/App.js]        (the web client's [App] component),
    together with a model of the ingestion-and-retrieval core that the
    repository documents but whose code lives in the Python backend.

    Conventions.
      - A JavaScript string is a [string]: one [ascii] per UTF-16 code unit,
        restricted to the code units below 256.
      - A JavaScript [number] the client computes with (a similarity) is an
        IEEE 754 binary64 value, a [float] of the kernel, whose operations
        round as JavaScript's do; a count the client only passes on is the
        rational its JSON text denotes ([Q]).
      - An [async] method is a function from the outcome of the awaited
        network call to the outcome of the method; the requests it issues
        are returned next to the outcome, oldest first.
      - React state is an explicit record; a handler maps the state before
        the call to the state after every state update it schedules. *)

From Stdlib Require Import PrimFloat SpecFloat FloatOps.
From Stdlib Require Uint63.
From Stdlib Require Import QArith Reals Lra Lia ZArith String Ascii List Sorted.
From stdpp Require Import gmap strings list fin_maps pretty lexico.

(** ** JavaScript strings *)

Module Js.

(** The code units [String.prototype.trim] removes, among those below 256:
    TAB, LF, VT, FF, CR, SPACE and NO-BREAK SPACE. *)
Definition is_whitespace (c : ascii) : bool :=
  let n := nat_of_ascii c in
  ((9 <=? n) && (n <=? 13)) || (n =? 32) || (n =? 160).

Fixpoint trimStart (s : string) : string :=
  match s with
  | EmptyString => EmptyString
  | String c s' => if is_whitespace c then trimStart s' else s
  end.

(** [trimEnd] walks to the end and drops the trailing white space on the
    way back. *)
Fixpoint trimEnd (s : string) : string :=
  match s with
  | EmptyString => EmptyString
  | String c s' =>
      match trimEnd s' with
      | EmptyString => if is_whitespace c then EmptyString else String c EmptyString
      | t => String c t
      end
  end.

Definition trim (s : string) : string := trimEnd (trimStart s).

(** Truthiness of a string: only the empty string is falsy. *)
Definition truthy (s : string) : bool :=
  match s with EmptyString => false | _ => true end.

(** [o || d] for an operand that is a string or [undefined]. *)
Definition or_else (o : option string) (d : string) : string :=
  match o with
  | Some s => if truthy s then s else d
  | None => d
  end.

(** [Math.round] on a double.  NaN, the infinities, the two zeros and every
    double without a fractional part (exponent at least 0) are returned as
    they are.  Otherwise the double is [n * 2 ^ e] with [e < 0], hence below
    [2 ^ 53] in magnitude, and the result is the integer [floor (x + 1/2)]
    computed exactly, so a half rounds towards plus infinity; a negative
    argument that rounds to zero gives [-0]. *)
Definition Math_round (x : float) : float :=
  match Prim2SF x with
  | S754_finite s m e =>
      if (0 <=? e)%Z then x
      else
        let n := if s then Z.neg m else Z.pos m in
        let r := ((n + 2 ^ (- e - 1)) / 2 ^ (- e))%Z in
        if (r =? 0)%Z then (if s then (-0)%float else 0%float)
        else if (r <? 0)%Z
             then PrimFloat.opp (PrimFloat.of_uint63 (Uint63.of_Z (- r)))
             else PrimFloat.of_uint63 (Uint63.of_Z r)
  | _ => x
  end.

(** The specification's reading of "white space only". *)
Fixpoint whitespace_only (s : string) : bool :=
  match s with
  | EmptyString => true
  | String c s' => is_whitespace c && whitespace_only s'
  end.

End Js.

(** ** HTTP *)

Module Http.

Inductive verb := GET | POST | DELETE.

(** The values the client puts in a request body. *)
Inductive json :=
| JNull
| JBool (b : bool)
| JNum (q : Q)
| JStr (s : string).

(** [JSON.stringify] of an object literal: a property whose value is
    [undefined] is left out, the others keep their order. *)
Fixpoint stringify (props : list (string * option json)) : list (string * json) :=
  match props with
  | [] => []
  | (k, Some v) :: rest => (k, v) :: stringify rest
  | (_, None) :: rest => stringify rest
  end.

(** Reading a property of a serialised object; [None] when the property
    is absent. *)
Fixpoint property (k : string) (fields : list (string * json)) : option json :=
  match fields with
  | [] => None
  | (k', v) :: rest => if String.eqb k k' then Some v else property k rest
  end.

(** A request as the caller writes it: [headers] are those the caller
    sets, [body] the object it serialises. *)
Record request := {
  url : string;
  method : verb;
  headers : list (string * string);
  body : option (list (string * json))
}.

(** What the awaited [fetch] (and then [response.json()]) can give: the
    promise rejects, or it resolves to a response.  [json_body] is the result
    of [response.json()]: [None] when the body is not JSON, in which case
    that promise rejects. *)
Record response (T : Type) := {
  ok : bool;
  status : Z;
  json_body : option T
}.
Arguments ok {T} _.
Arguments status {T} _.
Arguments json_body {T} _.

Inductive fetched (T : Type) :=
| Rejected
| Resolved (r : response T).
Arguments Rejected {T}.
Arguments Resolved {T} _.

Inductive error :=
| HttpError (message : string)
| NetworkError
| SyntaxError.

Inductive outcome (T : Type) :=
| Returns (v : T)
| Throws (e : error).
Arguments Returns {T} _.
Arguments Throws {T} _.

Definition throws {T} (o : outcome T) : bool :=
  match o with Throws _ => true | Returns _ => false end.

Definition bind {A B} (k : A -> outcome B) (o : outcome A) : outcome B :=
  match o with
  | Returns v => k v
  | Throws e => Throws e
  end.

(** [await fetch(...)]. *)
Definition await_fetch {T} (fetch : request -> fetched T) (req : request)
  : outcome (response T) :=
  match fetch req with
  | Rejected => Throws NetworkError
  | Resolved r => Returns r
  end.

(** [return response.json()] inside an [async] function. *)
Definition await_json {T} (r : response T) : outcome T :=
  match json_body r with
  | Some v => Returns v
  | None => Throws SyntaxError
  end.

(** [new Error(`HTTP error! status: ${response.status}`)]. *)
Definition http_error {T} (r : response T) : error :=
  HttpError ("HTTP error! status: " +:+ pretty (status r)).

End Http.

(** [await] sequencing is written with the monadic bind [x ← c; k]. *)
#[global] Instance outcome_bind : MBind Http.outcome := @Http.bind.
#[global] Instance outcome_ret : MRet Http.outcome := @Http.Returns.

(** ** [src/app/services/api.ts]: the interfaces *)

(** A value of type [any] that the client only reads properties of: a JSON
    object with string-valued properties.  A missing key reads as
    [undefined]. *)
Abbreviation any := (gmap string string).

Module ChatMessage.
Record t := { message : string; conversation_id : option string }.
End ChatMessage.

Module Source.
Record t := { content : string; metadata : any; similarity : float }.
End Source.

Module ChatResponse.
Record t := {
  response : string;
  conversation_id : string;
  sources : list Source.t
}.
End ChatResponse.

Module Conversation.
Record t := {
  id : string;
  title : string;
  created_at : string;
  updated_at : string;
  message_count : Q
}.
End Conversation.

Module ConversationDetail.
Record turn := {
  timestamp : string;
  user_message : string;
  bot_response : string;
  sources : list any
}.
Record t := {
  id : string;
  title : string;
  created_at : string;
  updated_at : string;
  messages : list turn
}.
End ConversationDetail.

Module SystemStats.
Record t := {
  total_chunks : Q;
  unique_files : Q;
  file_types : gmap string Q;
  embedding_model : string;
  vector_db_path : string
}.
End SystemStats.

Module IngestionStatus.
Record t := { status : string; progress : Q; message : string }.
End IngestionStatus.

Module Health.
Record t := { status : string; service : string }.
End Health.

(** ** [src/app/services/api.ts]: class [ApiService] *)

Module ApiService.
Import Http.

Definition API_BASE_URL : string := "http://localhost:8000".

Record t := { baseUrl : string }.

Definition constructor : t := {| baseUrl := API_BASE_URL |}.

Definition json_headers : list (string * string) :=
  [("Content-Type", "application/json")].

Definition get (u : string) : request :=
  {| url := u; method := GET; headers := []; body := None |}.

Section Methods.
Variable this : t.

Definition sendMessage_request (message : ChatMessage.t) : request :=
  {| url := baseUrl this +:+ "/chat";
     method := POST;
     headers := json_headers;
     body := Some (stringify
       [("message", Some (JStr (ChatMessage.message message)));
        ("conversation_id", JStr <$> ChatMessage.conversation_id message)]) |}.

Definition sendMessage (fetch : request -> fetched ChatResponse.t)
    (message : ChatMessage.t) : list request * outcome ChatResponse.t :=
  let req := sendMessage_request message in
  ([req],
   response ← await_fetch fetch req;
   if negb (ok response) then Throws (http_error response)
   else await_json response).

Definition getConversations (fetch : request -> fetched (list Conversation.t))
  : list request * outcome (list Conversation.t) :=
  let req := get (baseUrl this +:+ "/conversations") in
  ([req],
   response ← await_fetch fetch req;
   if negb (ok response) then Throws (http_error response)
   else await_json response).

Definition getConversation (fetch : request -> fetched ConversationDetail.t)
    (conversationId : string) : list request * outcome ConversationDetail.t :=
  let req := get (baseUrl this +:+ "/conversations/" +:+ conversationId) in
  ([req],
   response ← await_fetch fetch req;
   if negb (ok response) then Throws (http_error response)
   else await_json response).

Definition deleteConversation {T} (fetch : request -> fetched T)
    (conversationId : string) : list request * outcome unit :=
  let req := {| url := baseUrl this +:+ "/conversations/" +:+ conversationId;
                method := DELETE; headers := []; body := None |} in
  ([req],
   response ← await_fetch fetch req;
   if negb (ok response) then Throws (http_error response)
   else Returns tt).

(** [incremental: boolean = true]: the default is taken when the
    argument is omitted ([None]). *)
Definition triggerIngestion_request (path : option string) (incremental : option bool)
  : request :=
  let incremental := default true incremental in
  {| url := baseUrl this +:+ "/ingest";
     method := POST;
     headers := json_headers;
     body := Some (stringify
       [("path", JStr <$> path);
        ("incremental", Some (JBool incremental))]) |}.

Definition triggerIngestion {T} (fetch : request -> fetched T)
    (path : option string) (incremental : option bool)
  : list request * outcome unit :=
  let req := triggerIngestion_request path incremental in
  ([req],
   response ← await_fetch fetch req;
   if negb (ok response) then Throws (http_error response)
   else Returns tt).

Definition getIngestionStatus (fetch : request -> fetched IngestionStatus.t)
  : list request * outcome IngestionStatus.t :=
  let req := get (baseUrl this +:+ "/ingest/status") in
  ([req],
   response ← await_fetch fetch req;
   if negb (ok response) then Throws (http_error response)
   else await_json response).

Definition getStats (fetch : request -> fetched SystemStats.t)
  : list request * outcome SystemStats.t :=
  let req := get (baseUrl this +:+ "/stats") in
  ([req],
   response ← await_fetch fetch req;
   if negb (ok response) then Throws (http_error response)
   else await_json response).

Definition checkHealth (fetch : request -> fetched Health.t)
  : list request * outcome Health.t :=
  let req := get (baseUrl this +:+ "/health") in
  ([req],
   response ← await_fetch fetch req;
   if negb (ok response) then Throws (http_error response)
   else await_json response).

End Methods.

(** [export const apiService = new ApiService()]. *)
Definition apiService : t := constructor.

(** What a method that ends in [return response.json()] does with the
    response [r] it received, [o] being the method's outcome. *)
Definition returns_parsed_body {T} (r : response T) (o : outcome T) : Prop :=
  (ok r = false → o = Throws (http_error r))
  ∧ (ok r = true → ∀ v, json_body r = Some v → o = Returns v)
  ∧ (ok r = true → json_body r = None → o = Throws SyntaxError)
  ∧ (is_Some (json_body r) → (throws o = true ↔ ok r = false)).

(** The same for a method declared [Promise<void>], which never reads
    the body. *)
Definition returns_nothing {T} (r : response T) (o : outcome unit) : Prop :=
  (ok r = false → o = Throws (http_error r))
  ∧ (ok r = true → o = Returns tt)
  ∧ (throws o = true ↔ ok r = false).

End ApiService.

(** ** [src/app/services/api.ts]: component [ChatScreen] *)

Module ChatScreen.
Import Http.

Record Message := {
  id : string;
  text : string;
  isUser : bool;
  timestamp : Z;
  sources : option (list Source.t)
}.

Record Snackbar := { visible : bool; message : string }.

(** The [useState] cells of the component. *)
Record state := {
  messages : list Message;
  inputText : string;
  isLoading : bool;
  conversationId : option string;
  snackbar : Snackbar
}.

(** What one call of the handler reads from outside the component: the
    backend behind [fetch] and the clock behind [Date.now()] and
    [new Date()], in the order the handler reads them. *)
Record world := {
  fetch : request -> fetched ChatResponse.t;
  now_user : Z;
  date_user : Z;
  now_bot : Z;
  date_bot : Z
}.

Definition failure_text : string :=
  "Failed to send message. Make sure the backend is running.".

(** [const sendMessage = async () => { ... }].  The result is the list of
    HTTP requests issued and the state once the promise has settled.
    [console.error] writes to the developer console only and is left
    out. *)
Definition sendMessage (w : world) (s : state) : list request * state :=
  if negb (Js.truthy (Js.trim (inputText s))) || isLoading s then ([], s)
  else
    let userMessage :=
      {| id := pretty (now_user w);
         text := Js.trim (inputText s);
         isUser := true;
         timestamp := date_user w;
         sources := None |} in
    (* setMessages(prev => [...prev, userMessage]); setInputText('');
       setIsLoading(true) *)
    let messages1 := messages s ++ [userMessage] in
    let '(reqs, result) :=
      ApiService.sendMessage ApiService.apiService (fetch w)
        {| ChatMessage.message := text userMessage;
           ChatMessage.conversation_id := conversationId s |} in
    match result with
    | Returns response =>
        let botMessage :=
          {| id := pretty (now_bot w + 1)%Z;
             text := ChatResponse.response response;
             isUser := false;
             timestamp := date_bot w;
             sources := Some (ChatResponse.sources response) |} in
        (reqs,
         {| messages := messages1 ++ [botMessage];
            inputText := "";
            isLoading := false;
            conversationId := Some (ChatResponse.conversation_id response);
            snackbar := snackbar s |})
    | Throws _ =>
        (reqs,
         {| messages := messages1;
            inputText := "";
            isLoading := false;
            conversationId := conversationId s;
            snackbar := {| visible := true; message := failure_text |} |})
    end.

(** A child of a JSX element: literal or computed text, or a number, which
    React prints with [String]. *)
Inductive child :=
| Text (s : string)
| Number (n : float).

(** What [renderMessage] puts on screen for one message: the bubble's
    side and text, and the children of one chip per source when the message
    has a non-empty source list. *)
Record bubble := {
  on_user_side : bool;
  shown_text : string;
  sources_title : option string;
  chips : list (list child)
}.

(** The children of one [Chip]; the product is a multiplication of
    doubles. *)
Definition chip (source : Source.t) : list child :=
  [ Text (Js.or_else (Source.metadata source !! "filename") "Unknown");
    Text " (";
    Number (Js.Math_round (Source.similarity source * 100)%float);
    Text "%)" ].

Definition renderMessage (item : Message) : bubble :=
  match sources item with
  | Some ((_ :: _) as l) =>
      {| on_user_side := isUser item;
         shown_text := text item;
         sources_title := Some "Sources:";
         chips := chip <$> l |}
  | _ =>
      {| on_user_side := isUser item;
         shown_text := text item;
         sources_title := None;
         chips := [] |}
  end.

(** Every source the screen shows, message by message. *)
Definition shown_sources (s : state) : list Source.t :=
  m ← messages s; default [] (sources m).

(** *** The rest of the component

    The two texts below hold characters outside the range of the string
    convention; they are kept as the UTF-8 bytes of the source literal and
    no function here inspects them. *)

Definition welcome_text : string :=
  "🕳️ Welcome to Yak Hole! I can help you search through your personal notes and answer questions about them. What would you like to know?".

Definition cleared_text : string :=
  "🕳️ Chat cleared. What would you like to know about your notes?".

(** The component once mounted: the initial values of the [useState]
    cells, and the welcome message the mount effect sets.  [date] is the
    effect's [new Date()]. *)
Definition mount (date : Z) : state :=
  {| messages :=
       [{| id := "1"; text := welcome_text; isUser := false;
           timestamp := date; sources := None |}];
     inputText := "";
     isLoading := false;
     conversationId := None;
     snackbar := {| visible := false; message := "" |} |}.

(** The buttons of the alert [clearChat] opens. *)
Inductive alert_button := Cancel | Clear.

(** [clearChat], up to the button pressed.  [date] is the [new Date()] of
    the [Clear] handler. *)
Definition clearChat (pressed : alert_button) (date : Z) (s : state) : state :=
  match pressed with
  | Cancel => s
  | Clear =>
      {| messages :=
           [{| id := "1"; text := cleared_text; isUser := false;
               timestamp := date; sources := None |}];
         inputText := inputText s;
         isLoading := isLoading s;
         conversationId := None;
         snackbar := snackbar s |}
  end.

(** [onDismiss] of the snackbar. *)
Definition dismissSnackbar (s : state) : state :=
  {| messages := messages s;
     inputText := inputText s;
     isLoading := isLoading s;
     conversationId := conversationId s;
     snackbar := {| visible := false; message := "" |} |}.

(** [disabled={isLoading}] of the text input. *)
Definition input_disabled (s : state) : bool := isLoading s.

(** [disabled={isLoading || !inputText.trim()}] of the send icon. *)
Definition send_disabled (s : state) : bool :=
  isLoading s || negb (Js.truthy (Js.trim (inputText s))).

(** [keyExtractor={item => item.id}] of the message list. *)
Definition keyExtractor (item : Message) : string := id item.

(** The keys of the list are decimal numerals of integers below [t]. *)
Definition keys_before (t : Z) (s : state) : Prop :=
  ∀ m, m ∈ messages s → ∃ n : Z, id m = pretty n ∧ (n < t)%Z.

(** [sendMessage] up to its [await]: the guard, the three state updates
    and the call of [apiService.sendMessage], which issues the request.
    The result holds the message that was sent, if any. *)
Definition sendMessage_begin (w : world) (s : state)
  : list request * option ChatMessage.t * state :=
  if negb (Js.truthy (Js.trim (inputText s))) || isLoading s then ([], None, s)
  else
    let userMessage :=
      {| id := pretty (now_user w);
         text := Js.trim (inputText s);
         isUser := true;
         timestamp := date_user w;
         sources := None |} in
    let sent :=
      {| ChatMessage.message := text userMessage;
         ChatMessage.conversation_id := conversationId s |} in
    ([ApiService.sendMessage_request ApiService.apiService sent], Some sent,
     {| messages := messages s ++ [userMessage];
        inputText := "";
        isLoading := true;
        conversationId := conversationId s;
        snackbar := snackbar s |}).

(** [sendMessage] from its [await] on, run on the state [s] the component
    is in when the promise settles: the updates of the [try] or of the
    [catch] block, then of [finally]. *)
Definition sendMessage_settle (w : world) (sent : ChatMessage.t) (s : state) : state :=
  match (ApiService.sendMessage ApiService.apiService (fetch w) sent).2 with
  | Returns response =>
      let botMessage :=
        {| id := pretty (now_bot w + 1)%Z;
           text := ChatResponse.response response;
           isUser := false;
           timestamp := date_bot w;
           sources := Some (ChatResponse.sources response) |} in
      {| messages := messages s ++ [botMessage];
         inputText := inputText s;
         isLoading := false;
         conversationId := Some (ChatResponse.conversation_id response);
         snackbar := snackbar s |}
  | Throws _ =>
      {| messages := messages s;
         inputText := inputText s;
         isLoading := false;
         conversationId := conversationId s;
         snackbar := {| visible := true; message := failure_text |} |}
  end.

(** [onChangeText={setInputText}]. *)
Definition onChangeText (typed : string) (s : state) : state :=
  {| messages := messages s;
     inputText := typed;
     isLoading := isLoading s;
     conversationId := conversationId s;
     snackbar := snackbar s |}.

End ChatScreen.

(** ** [src/web/src/App.js]: component [App] *)

Module WebApp.
Import Http.

Definition API_BASE_URL : string := "http://localhost:8000".

Inductive sender := user | bot.

(** A chat message object.  [sources] is [None] when the object has no
    such property. *)
Record message := {
  type : sender;
  content : string;
  sources : option (list any);
  timestamp : string
}.

(** [response.data] of the chat endpoint, read property by property;
    a property that is missing reads as [None]. *)
Record chat_data := {
  data_response : string;
  data_sources : option (list any);
  data_conversation_id : option string
}.

(** The promise [axios.get]/[axios.post] returns: it resolves with the
    data of a 2xx response and rejects on anything else; a rejection may
    still carry the data of the failed response. *)
Inductive axios (T : Type) :=
| Fulfilled (data : T)
| Failed (response_data : option T).
Arguments Fulfilled {T} _.
Arguments Failed {T} _.

(** The [useState] cells of the component; [None] stands for [null]. *)
Record state := {
  conversations : list any;
  currentConversation : option string;
  messages : list message;
  inputMessage : string;
  loading : bool;
  connected : bool
}.

Record world := {
  post_chat : request -> axios chat_data;
  get_conversations : request -> axios (list any);
  date_user : string;
  date_bot : string
}.

Definition error_text : string :=
  "Sorry, there was an error processing your message. Please make sure the backend is running and try again.".

(** [axios.post(url, data)]: the object is sent as JSON, a [null]
    conversation included.  No header is set by the caller. *)
Definition chat_request (userMessage : string) (currentConversation : option string)
  : request :=
  {| url := API_BASE_URL +:+ "/chat";
     method := POST;
     headers := [];
     body := Some (stringify
       [("message", Some (JStr userMessage));
        ("conversation_id", Some (from_option JStr JNull currentConversation))]) |}.

Definition conversations_request : request :=
  {| url := API_BASE_URL +:+ "/conversations";
     method := GET; headers := []; body := None |}.

(** [loadConversations]: the list is replaced on success and kept on
    failure. *)
Definition loadConversations (w : world) (conversations : list any)
  : list request * list any :=
  ([conversations_request],
   match get_conversations w conversations_request with
   | Fulfilled data => data
   | Failed _ => conversations
   end).

Definition sendMessage (w : world) (s : state) : list request * state :=
  if negb (Js.truthy (Js.trim (inputMessage s))) || loading s then ([], s)
  else
    let userMessage := Js.trim (inputMessage s) in
    let newUserMessage :=
      {| type := user; content := userMessage; sources := None;
         timestamp := date_user w |} in
    let messages1 := messages s ++ [newUserMessage] in
    let req := chat_request userMessage (currentConversation s) in
    match post_chat w req with
    | Fulfilled data =>
        let botMessage :=
          {| type := bot;
             content := data_response data;
             sources := Some (default [] (data_sources data));
             timestamp := date_bot w |} in
        let messages2 := messages1 ++ [botMessage] in
        match data_conversation_id data with
        | Some cid =>
            if Js.truthy cid then
              let '(reqs, convs) := loadConversations w (conversations s) in
              (req :: reqs,
               {| conversations := convs;
                  currentConversation := Some cid;
                  messages := messages2;
                  inputMessage := "";
                  loading := false;
                  connected := connected s |})
            else
              ([req],
               {| conversations := conversations s;
                  currentConversation := currentConversation s;
                  messages := messages2;
                  inputMessage := "";
                  loading := false;
                  connected := connected s |})
        | None =>
            ([req],
             {| conversations := conversations s;
                currentConversation := currentConversation s;
                messages := messages2;
                inputMessage := "";
                loading := false;
                connected := connected s |})
        end
    | Failed _ =>
        let errorMessage :=
          {| type := bot; content := error_text; sources := None;
             timestamp := date_bot w |} in
        ([req],
         {| conversations := conversations s;
            currentConversation := currentConversation s;
            messages := messages1 ++ [errorMessage];
            inputMessage := "";
            loading := false;
            connected := connected s |})
    end.

(** Every source the page shows, message by message. *)
Definition shown_sources (s : state) : list any :=
  m ← messages s; default [] (sources m).

(** *** The rest of the component *)

(** The initial values of the [useState] cells. *)
Definition initial : state :=
  {| conversations := [];
     currentConversation := None;
     messages := [];
     inputMessage := "";
     loading := false;
     connected := false |}.

Definition health_request : request :=
  {| url := API_BASE_URL +:+ "/health";
     method := GET; headers := []; body := None |}.

(** [checkConnection], run on mount and then every thirty seconds. *)
Definition checkConnection {T} (get_health : request -> axios T) (s : state)
  : list request * state :=
  ([health_request],
   {| conversations := conversations s;
      currentConversation := currentConversation s;
      messages := messages s;
      inputMessage := inputMessage s;
      loading := loading s;
      connected := match get_health health_request with
                   | Fulfilled _ => true
                   | Failed _ => false
                   end |}).

(** [response.data] of one conversation; [messages] may be missing. *)
Record conversation_data := { data_messages : option (list message) }.

Definition conversation_request (conversationId : string) : request :=
  {| url := API_BASE_URL +:+ "/conversations/" +:+ conversationId;
     method := GET; headers := []; body := None |}.

(** [loadConversation]. *)
Definition loadConversation (get_conversation : request -> axios conversation_data)
    (conversationId : string) (s : state) : list request * state :=
  let req := conversation_request conversationId in
  ([req],
   match get_conversation req with
   | Fulfilled data =>
       {| conversations := conversations s;
          currentConversation := Some conversationId;
          messages := default [] (data_messages data);
          inputMessage := inputMessage s;
          loading := loading s;
          connected := connected s |}
   | Failed _ => s
   end).

(** [startNewConversation]. *)
Definition startNewConversation (s : state) : state :=
  {| conversations := conversations s;
     currentConversation := None;
     messages := [];
     inputMessage := inputMessage s;
     loading := loading s;
     connected := connected s |}.

(** The properties of a key event that [handleKeyPress] reads. *)
Record key_event := { key : string; shiftKey : bool }.

(** [handleKeyPress]; the first component tells whether
    [e.preventDefault()] was called. *)
Definition handleKeyPress (w : world) (e : key_event) (s : state)
  : bool * (list request * state) :=
  if String.eqb (key e) "Enter" && negb (shiftKey e)
  then (true, sendMessage w s)
  else (false, ([], s)).

(** [a || b] for operands that are strings or [undefined]. *)
Definition js_or (a b : option string) : option string :=
  match a with
  | Some x => if Js.truthy x then a else b
  | None => b
  end.

(** The text of one [source-item]; the icon is kept as the UTF-8 bytes of
    the source literal. *)
Definition source_item (source : any) : string :=
  "📄 " +:+ Js.or_else (js_or (source !! "filename") (source !! "title"))
            "Unknown source".

(** What the page shows for one message: the class of the bubble, its
    content, and the items of the sources block when there is one. *)
Record shown_message := {
  class_name : string;
  shown_content : string;
  source_items : option (list string)
}.

Definition render_message (m : message) : shown_message :=
  {| class_name := "message " +:+ match type m with user => "user" | bot => "bot" end;
     shown_content := content m;
     source_items :=
       match sources m with
       | Some ((_ :: _) as l) => Some (source_item <$> l)
       | _ => None
       end |}.

(** The chat area: the welcome panel when there is no message, else the
    messages; the "Thinking..." bubble while loading. *)
Record chat_area := {
  empty_state : bool;
  shown : list shown_message;
  thinking : bool
}.

Definition render_chat (s : state) : chat_area :=
  {| empty_state := match messages s with [] => true | _ => false end;
     shown := render_message <$> messages s;
     thinking := loading s |}.

(** [disabled={!connected || loading}] of the input. *)
Definition input_disabled (s : state) : bool :=
  negb (connected s) || loading s.

(** [disabled={!connected || loading || !inputMessage.trim()}] of the Send
    button. *)
Definition send_disabled (s : state) : bool :=
  negb (connected s) || loading s || negb (Js.truthy (Js.trim (inputMessage s))).

Definition placeholder (s : state) : string :=
  if connected s then "Ask about your notes..." else "Backend not connected".

(** [conv.preview || 'New conversation']. *)
Definition conversation_preview (conv : any) : string :=
  Js.or_else (conv !! "preview") "New conversation".

(** [onChange={(e) => setInputMessage(e.target.value)}]. *)
Definition onChange (typed : string) (s : state) : state :=
  {| conversations := conversations s;
     currentConversation := currentConversation s;
     messages := messages s;
     inputMessage := typed;
     loading := loading s;
     connected := connected s |}.

(** [sendMessage] up to its [await]: the guard, the three state updates
    and the call of [axios.post], which issues the request.  The result
    holds the request that is in flight, if any. *)
Definition sendMessage_begin (w : world) (s : state)
  : option request * state :=
  if negb (Js.truthy (Js.trim (inputMessage s))) || loading s then (None, s)
  else
    let userMessage := Js.trim (inputMessage s) in
    let newUserMessage :=
      {| type := user; content := userMessage; sources := None;
         timestamp := date_user w |} in
    (Some (chat_request userMessage (currentConversation s)),
     {| conversations := conversations s;
        currentConversation := currentConversation s;
        messages := messages s ++ [newUserMessage];
        inputMessage := "";
        loading := true;
        connected := connected s |}).

(** [sendMessage] from its [await] on, run on the state [s] the component
    is in when the promise settles.  The requests are those of the
    refresh of the conversation list. *)
Definition sendMessage_settle (w : world) (req : request) (s : state)
  : list request * state :=
  match post_chat w req with
  | Fulfilled data =>
      let botMessage :=
        {| type := bot;
           content := data_response data;
           sources := Some (default [] (data_sources data));
           timestamp := date_bot w |} in
      match js_or (data_conversation_id data) None with
      | Some cid =>
          let '(reqs, convs) := loadConversations w (conversations s) in
          (reqs,
           {| conversations := convs;
              currentConversation := Some cid;
              messages := messages s ++ [botMessage];
              inputMessage := inputMessage s;
              loading := false;
              connected := connected s |})
      | None =>
          ([],
           {| conversations := conversations s;
              currentConversation := currentConversation s;
              messages := messages s ++ [botMessage];
              inputMessage := inputMessage s;
              loading := false;
              connected := connected s |})
      end
  | Failed _ =>
      let errorMessage :=
        {| type := bot; content := error_text; sources := None;
           timestamp := date_bot w |} in
      ([],
       {| conversations := conversations s;
          currentConversation := currentConversation s;
          messages := messages s ++ [errorMessage];
          inputMessage := inputMessage s;
          loading := false;
          connected := connected s |})
  end.

End WebApp.

(** ** The ingestion-and-retrieval core

    The backend is not part of the sources at hand; the components below
    follow the specification's contracts. *)

Module Core.

Abbreviation path := string.
Abbreviation vector := (list R).

Inductive file_type := Markdown | Pdf | PlainText.

#[global] Instance file_type_eq_dec : EqDecision file_type.
Proof. solve_decision. Defined.

#[global] Instance R_eq_dec : EqDecision R := Req_dec_T.
#[global] Instance R_lt_dec : RelDecision Rlt := Rlt_dec.

(** Modelled from the spec: a SourceDocument as the directory walk sees it
    (section 3): content, modification time and file type. *)
Record file := {
  bytes : string;
  mtime : Z;
  ftype : file_type
}.

(** Modelled from the spec: a Chunk before embedding, as the Chunker returns
    it (section 4.2): text and character offset range. *)
Record piece := {
  piece_text : string;
  piece_start : nat;
  piece_stop : nat
}.

(** Modelled from the spec: the collaborators of section 6 and the
    unspecified heuristics of sections 4.1 to 4.3, taken as parameters.
    [hash] is the content hash of the fingerprint, [extract] the text
    extraction service ([None]: ExtractionFailure), [split] the Chunker at
    the configured size and overlap, [embed_query] the Embedder's
    transformation, [embed_ok] whether a batch call to the Embedder
    succeeds ([false]: EmbeddingFailure), [complete] the language-model
    completion service ([None]: ModelCallFailure). *)
Record Env := {
  hash : string -> N;
  extract : file -> option string;
  split : string -> list piece;
  embed_query : string -> vector;
  embed_ok : list string -> bool;
  complete : string -> list string -> option string;
  embedding_model : string;
  prompt_budget : nat
}.

(** *** Data model (section 3) *)

(** Modelled from the spec: a chunk ID is derived from the source
    document's identity and the chunk's sequence index. *)
Abbreviation chunk_id := (path * nat)%type.

(** Modelled from the spec: the fingerprint of section 4.1, as a (size,
    mtime, content-hash) tuple. *)
Record fingerprint := {
  fp_size : nat;
  fp_mtime : Z;
  fp_hash : N
}.

#[global] Instance fingerprint_eq_dec : EqDecision fingerprint.
Proof. solve_decision. Defined.

(** Modelled from the spec: a VectorIndexEntry pairs a chunk's ID (the key
    it is stored under) with its vector and metadata. *)
Record entry := {
  e_vector : vector;
  e_text : string;
  e_start : nat;
  e_stop : nat;
  e_filename : string;
  e_type : file_type
}.

(** Modelled from the spec: the Document Tracker's table, keyed by path,
    holding the last-seen fingerprint and the chunk IDs produced. *)
Record tracked := {
  t_fingerprint : fingerprint;
  t_chunks : list chunk_id
}.

(** Modelled from the spec: the Vector Index, keyed by chunk ID, with the
    embedding model identifier recorded alongside. *)
Record Index := {
  model : string;
  entries : gmap chunk_id entry
}.

(** Modelled from the spec: what a pass reads and writes: the tracker's
    table, the index, and the documents the pass recorded as failed (the
    IngestionState of section 3). *)
Record state := {
  tracker : gmap path tracked;
  index : Index;
  failed : list path
}.

(** *** Vector Index (section 4.4) *)

(** Modelled from the spec: the order on chunk IDs that breaks ties (section
    4.4): by path, code unit by code unit, then by sequence index. *)
Definition id_key (i : chunk_id) : list nat * nat :=
  (nat_of_ascii <$> list_ascii_of_string i.1, i.2).

(** Modelled from the spec: [id_lt a b], chunk ID [a] is smaller than [b]. *)
Definition id_lt (a b : chunk_id) : Prop := lexico (id_key a) (id_key b).

#[global] Instance id_lt_dec : RelDecision id_lt.
Proof. intros a b. unfold id_lt. apply _. Defined.

(** Modelled from the spec: the inner product behind cosine similarity
    (section 4.4); a longer vector is cut to the shorter one's length. *)
Fixpoint dot (a b : vector) : R :=
  match a, b with
  | x :: a', y :: b' => (x * y + dot a' b')%R
  | _, _ => 0%R
  end.

(** Modelled from the spec: the Euclidean norm. *)
Definition norm (a : vector) : R := sqrt (dot a a).

(** Modelled from the spec: cosine similarity (section 4.4), over the real
    numbers. *)
Definition cosine (a b : vector) : R := (dot a b / (norm a * norm b))%R.

(** Modelled from the spec: [upsert] inserts or replaces by chunk ID. *)
Definition upsert (es : list (chunk_id * entry)) (ix : Index) : Index :=
  {| model := model ix;
     entries := foldl (λ m e, <[e.1 := e.2]> m) (entries ix) es |}.

(** Modelled from the spec: [delete] removes entries, absent IDs are
    skipped. *)
Definition delete_ids (ids : list chunk_id) (ix : Index) : Index :=
  {| model := model ix;
     entries := foldl (λ m i, delete i m) (entries ix) ids |}.

(** Modelled from the spec: [delete_by_document] removes every entry of
    one source document. *)
Definition delete_by_document (d : path) (ix : Index) : Index :=
  {| model := model ix;
     entries := filter (λ kv, kv.1.1 ≠ d) (entries ix) |}.

(** A search hit: chunk ID and score. *)
Abbreviation hit := (chunk_id * R)%type.

(** Modelled from the spec: [ranks_before a b], [a] comes strictly before
    [b] in a ranking: by higher score, equal scores by smaller chunk ID
    (section 4.4). *)
Definition ranks_before (a b : hit) : Prop :=
  (b.2 < a.2)%R ∨ (a.2 = b.2 ∧ id_lt a.1 b.1).

#[global] Instance ranks_before_dec : RelDecision ranks_before.
Proof.
  intros a b. unfold ranks_before.
  destruct (Rlt_dec b.2 a.2); [left; by left|].
  destruct (decide (a.2 = b.2)); [|right; tauto].
  destruct (decide (id_lt a.1 b.1)); [left; by right|right; tauto].
Defined.

(** Modelled from the spec: [a] is not after [b], the weak order behind a
    ranking. *)
Definition not_after (a b : hit) : Prop := ¬ ranks_before b a.

(** Modelled from the spec: ranking by insertion; [place h l] puts [h] into
    the ranked list [l]. *)
Fixpoint place (h : hit) (l : list hit) : list hit :=
  match l with
  | [] => [h]
  | x :: l' => if decide (ranks_before x h) then x :: place h l' else h :: l
  end.

(** Modelled from the spec: the ranked sequence of a list of hits. *)
Definition rank (l : list hit) : list hit := foldr place [] l.

(** Modelled from the spec: [search(query_vector, k, filters?)] scores
    every live entry that passes the filter by cosine similarity, ranks
    the hits and keeps the first [k]. *)
Definition search (q : vector) (k : nat) (filters : option (entry -> bool))
    (ix : Index) : list hit :=
  let live := filter (λ kv, default (λ _, true) filters kv.2 = true)
                (map_to_list (entries ix)) in
  take k (rank ((λ kv, (kv.1, cosine q (e_vector kv.2))) <$> live)).

(** Modelled from the spec: the live entries with their scores, before
    filtering and ranking. *)
Definition scored (q : vector) (ix : Index) : list hit :=
  (λ kv, (kv.1, cosine q (e_vector kv.2))) <$> map_to_list (entries ix).

Section WithEnv.
Context (env : Env).

(** *** Document Tracker (section 4.1) *)

(** Modelled from the spec: the fingerprint of a walked file (section 4.1). *)
Definition fingerprint_of (f : file) : fingerprint :=
  {| fp_size := String.length (bytes f);
     fp_mtime := mtime f;
     fp_hash := hash env (bytes f) |}.

(** Modelled from the spec: the two modes of a pass (section 4.5). *)
Inductive mode := Incremental | FullRebuild.

(** Modelled from the spec: the partitions [scan] returns (section 4.1). *)
Record scan_result := {
  added : list path;
  modified : list path;
  removed : list path
}.

(** Modelled from the spec: a walked file is modified when it is tracked
    under a different fingerprint (section 4.1). *)
Definition is_modified (t : gmap path tracked) (pf : path * file) : bool :=
  match t !! pf.1 with
  | Some x => bool_decide (t_fingerprint x ≠ fingerprint_of pf.2)
  | None => false
  end.

(** Modelled from the spec: [scan] compares the walked listing with the
    persisted table; full-rebuild mode treats every file as added. *)
Definition scan (m : mode) (fs : gmap path file) (t : gmap path tracked)
  : scan_result :=
  match m with
  | FullRebuild =>
      {| added := (map_to_list fs).*1; modified := []; removed := [] |}
  | Incremental =>
      {| added := filter (λ p, ¬ is_Some (t !! p)) (map_to_list fs).*1;
         modified := (filter (λ pf, is_modified t pf = true) (map_to_list fs)).*1;
         removed := filter (λ p, ¬ is_Some (fs !! p)) (map_to_list t).*1 |}
  end.

(** *** Ingestion Pipeline (section 4.5) *)

(** Modelled from the spec: the filename of the metadata, the last component
    of the path. *)
Fixpoint basename_go (acc : string) (s : string) : string :=
  match s with
  | EmptyString => acc
  | String c s' =>
      if Ascii.eqb c "/" then basename_go EmptyString s'
      else basename_go (acc +:+ String c EmptyString) s'
  end.
(** Modelled from the spec: the filename of a path. *)
Definition basename (p : path) : string := basename_go EmptyString p.

(** Modelled from the spec: the index entry of one chunk of one document. *)
Definition make_entry (p : path) (f : file) (c : piece) (v : vector) : entry :=
  {| e_vector := v; e_text := piece_text c;
     e_start := piece_start c; e_stop := piece_stop c;
     e_filename := basename p; e_type := ftype f |}.

(** Modelled from the spec: step 3 of section 4.5 up to the upsert: extract,
    chunk and embed one document; [None] when extraction or embedding
    fails.  The chunk with sequence index [i] gets the ID [(p, i)]. *)
Definition doc_entries (p : path) (f : file) : option (list (chunk_id * entry)) :=
  text ← extract env f;
  let pieces := split env text in
  let texts := piece_text <$> pieces in
  if embed_ok env texts then
    Some (imap (λ i c, ((p, i), make_entry p f c (embed_query env (piece_text c))))
            pieces)
  else None.

(** Modelled from the spec: step 1 of section 4.5, a removed document loses
    its entries and its tracker row. *)
Definition remove_document (st : state) (p : path) : state :=
  {| tracker := delete p (tracker st);
     index := delete_by_document p (index st);
     failed := failed st |}.

(** Modelled from the spec: step 3 of section 4.5, a document that fails is
    recorded and left untracked, one that succeeds is upserted and tracked. *)
Definition process_document (fs : gmap path file) (st : state) (p : path) : state :=
  match fs !! p with
  | None => st
  | Some f =>
      match doc_entries p f with
      | None =>
          {| tracker := delete p (tracker st);
             index := index st;
             failed := failed st ++ [p] |}
      | Some es =>
          {| tracker := <[p := {| t_fingerprint := fingerprint_of f;
                                  t_chunks := es.*1 |}]> (tracker st);
             index := upsert es (index st);
             failed := failed st |}
      end
  end.

(** Modelled from the spec: step 2 of section 4.5, a modified document's old
    entries go, then it is processed as added, in one uninterrupted
    sequence. *)
Definition reprocess_document (fs : gmap path file) (st : state) (p : path) : state :=
  process_document fs
    {| tracker := tracker st;
       index := delete_by_document p (index st);
       failed := failed st |} p.

(** Modelled from the spec: one ingestion pass over the document set
    [fs].  The failure report is reset at the start of the pass; writes
    to the index always succeed here. *)
Definition run_pass (m : mode) (fs : gmap path file) (st : state) : state :=
  let r := scan m fs (tracker st) in
  let st0 := {| tracker := tracker st; index := index st; failed := [] |} in
  let st1 := foldl remove_document st0 (removed r) in
  let st2 := foldl (reprocess_document fs) st1 (modified r) in
  foldl (process_document fs) st2 (added r).

(** Modelled from the spec: the entries a document contributes to a pass:
    those of [doc_entries], none when the file is missing or fails. *)
Definition produced (fs : gmap path file) (p : path) : list (chunk_id * entry) :=
  default [] (f ← fs !! p; doc_entries p f).

(** Modelled from the spec: the tracker row of a document once it has been
    processed, [old] being its row before: absent after a failure, fresh
    after a success, untouched when the file is not in the walk. *)
Definition row_after (fs : gmap path file) (p : path) (old : option tracked)
  : option tracked :=
  match fs !! p with
  | None => old
  | Some f =>
      (λ es, {| t_fingerprint := fingerprint_of f; t_chunks := es.*1 |})
        <$> doc_entries p f
  end.

(** A table is settled for [fs] when every row belongs to a walked
    file and holds its current fingerprint, and every walked file
    without a row is one whose processing fails. *)
Definition settled (fs : gmap path file) (t : gmap path tracked) : Prop :=
  (∀ p x, t !! p = Some x →
     ∃ f, fs !! p = Some f ∧ t_fingerprint x = fingerprint_of f)
  ∧ (∀ p f, fs !! p = Some f → t !! p = None → doc_entries p f = None).





(** Modelled from the spec: the state before the first pass, an empty table
    and an empty index that records the Embedder's model identifier. *)
Definition initial : state :=
  {| tracker := ∅;
     index := {| model := embedding_model env; entries := ∅ |};
     failed := [] |}.

(** *** Retriever (section 4.6) *)

(** Modelled from the spec: one element of a RetrievalResult, a chunk with
    its similarity (section 3). *)
Record retrieved := {
  r_id : chunk_id;
  r_chunk : entry;
  r_score : R
}.

(** Modelled from the spec: [retrieve] embeds the query, searches, drops
    hits below the optional minimum similarity and attaches each hit's
    chunk. *)
Definition retrieve (query_text : string) (k : nat) (min_similarity : option R)
    (ix : Index) : list retrieved :=
  let hits := search (embed_query env query_text) k None ix in
  let strong :=
    match min_similarity with
    | None => hits
    | Some floor => filter (λ h : hit, ¬ (h.2 < floor)%R) hits
    end in
  omap (λ h : hit, e ← entries ix !! h.1;
                   Some {| r_id := h.1; r_chunk := e; r_score := h.2 |}) strong.

(** *** Context Assembler (section 4.7) *)

(** Modelled from the spec: the template's rendering of one chunk, a
    provenance marker and the chunk's text (section 4.7). *)
Definition render_chunk (c : retrieved) : string :=
  "[source: " +:+ e_filename (r_chunk c) +:+ "]" +:+ e_text (r_chunk c) +:+ "
".

(** Modelled from the spec: the fixed, model-independent template of the
    prompt (section 4.7). *)
Definition render_prompt (question : string) (history : list string)
    (chunks : list retrieved) : string :=
  "Context:
" +:+ String.concat "" (render_chunk <$> chunks)
    +:+ "History:
" +:+ String.concat "
" history
    +:+ "
Question: " +:+ question.

(** Modelled from the spec: the prompt over [chunks] is within the
    configured maximum size. *)
Definition fits (question : string) (history : list string)
    (chunks : list retrieved) : bool :=
  bool_decide (String.length (render_prompt question history chunks)
               ≤ prompt_budget env).

(** Modelled from the spec: drop the lowest-ranked chunk until the prompt
    fits (section 4.7).  [keep n] tries the [n] best chunks, then [n - 1],
    down to none. *)
Fixpoint keep (question : string) (history : list string)
    (chunks : list retrieved) (n : nat) : list retrieved :=
  if fits question history (take n chunks) then take n chunks
  else match n with
       | O => []
       | S n' => keep question history chunks n'
       end.

(** Modelled from the spec: the chunks actually included in the prompt. *)
Definition included (question : string) (history : list string)
    (result : list retrieved) : list retrieved :=
  keep question history result (length result).

(** Modelled from the spec: [build_prompt]. *)
Definition build_prompt (question : string) (result : list retrieved)
    (history : list string) : string :=
  render_prompt question history (included question history result).

(** Modelled from the spec: the (filename, similarity) pair of a chunk. *)
Definition citation (c : retrieved) : string * R :=
  (e_filename (r_chunk c), r_score c).

(** Modelled from the spec: the structured answer (section 4.7). *)
Record answer := {
  answer_text : string;
  sources : list (string * R)
}.

(** Modelled from the spec: [parse_response], given the chunks that went
    into the prompt. *)
Definition parse_response (raw_model_output : string)
    (in_prompt : list retrieved) : answer :=
  {| answer_text := raw_model_output;
     sources := remove_dups (citation <$> in_prompt) |}.

(** Modelled from the spec: the outcome of one chat turn on the query path:
    the structured answer, or a failed completion together with the sources
    that retrieval found (ModelCallFailure, section 7). *)
Inductive turn :=
| Answered (a : answer)
| ModelCallFailure (retrieved_sources : list (string * R)).

(** Modelled from the spec: the read path of section 2: Retriever, Context
    Assembler, completion service, structured answer. *)
Definition ask (question : string) (history : list string) (k : nat)
    (min_similarity : option R) (ix : Index) : turn :=
  let result := retrieve question k min_similarity ix in
  let in_prompt := included question history result in
  match complete env (build_prompt question result history) history with
  | Some raw => Answered (parse_response raw in_prompt)
  | None => ModelCallFailure (sources (parse_response "" in_prompt))
  end.

(** *** Maintenance (section 6): index statistics *)






End WithEnv.

End Core.

(** * Properties *)

(** ** JavaScript strings *)

Lemma trimStart_whitespace_only s :
  Js.whitespace_only s = true → Js.trimStart s = EmptyString.
Proof.
  induction s as [|c s IH]; simpl; [done|].
  intros [Hc Hs]%andb_true_iff. rewrite Hc. by apply IH.
Qed.

Lemma trimEnd_empty s :
  Js.trimEnd s = EmptyString → Js.whitespace_only s = true.
Proof.
  induction s as [|c s IH]; simpl; [done|].
  destruct (Js.trimEnd s) eqn:E; [|done].
  destruct (Js.is_whitespace c) eqn:Hc; [|done].
  intros _. by rewrite IH.
Qed.

Lemma trimStart_head s c t :
  Js.trimStart s = String c t → Js.is_whitespace c = false.
Proof.
  induction s as [|d s IH]; simpl; [done|].
  destruct (Js.is_whitespace d) eqn:Hd; [done|].
  intros [= -> ->]. done.
Qed.

Lemma trimStart_whitespace_only_inv s :
  Js.trimStart s = EmptyString → Js.whitespace_only s = true.
Proof.
  induction s as [|c s IH]; simpl; [done|].
  destruct (Js.is_whitespace c) eqn:Hc; [|done]. simpl. done.
Qed.

(** [trim] gives the empty string exactly on the strings made of white
    space only. *)
Lemma trim_empty_iff s :
  Js.trim s = EmptyString ↔ Js.whitespace_only s = true.
Proof.
  unfold Js.trim. split.
  - intros H. apply trimEnd_empty in H.
    destruct (Js.trimStart s) as [|c t] eqn:E.
    + by apply trimStart_whitespace_only_inv.
    + apply trimStart_head in E. simpl in H.
      rewrite E in H. done.
  - intros H. by rewrite trimStart_whitespace_only.
Qed.

Lemma truthy_trim_false s :
  Js.truthy (Js.trim s) = false ↔ Js.whitespace_only s = true.
Proof.
  rewrite <- trim_empty_iff. destruct (Js.trim s); simpl; split; done.
Qed.

(** ** The guard of the chat handlers *)

(** C9. A call of the chat [sendMessage] handler made while the input is
    empty or white space only, or while [isLoading]/[loading] is true,
    issues no HTTP request and leaves the whole component state, hence the
    message list, the conversation ID and the input text, as it was.  This
    holds for the React Native [ChatScreen] and for the web [App]. *)
Theorem sendMessage_guard_noop :
  (∀ (w : ChatScreen.world) (s : ChatScreen.state),
     Js.whitespace_only (ChatScreen.inputText s) = true
     ∨ ChatScreen.isLoading s = true →
     ChatScreen.sendMessage w s = ([], s))
  ∧ (∀ (w : WebApp.world) (s : WebApp.state),
     Js.whitespace_only (WebApp.inputMessage s) = true
     ∨ WebApp.loading s = true →
     WebApp.sendMessage w s = ([], s)).
Proof.
  split; intros w s H.
  - unfold ChatScreen.sendMessage.
    destruct H as [H|H].
    + apply truthy_trim_false in H. by rewrite H.
    + rewrite H. by rewrite orb_true_r.
  - unfold WebApp.sendMessage.
    destruct H as [H|H].
    + apply truthy_trim_false in H. by rewrite H.
    + rewrite H. by rewrite orb_true_r.
Qed.

(** The guard at work on a blank input in the mobile client and on a
    request in flight in the web client. *)
Lemma sendMessage_guard_noop_witness :
  let fetch : Http.request → Http.fetched ChatResponse.t := λ _, Http.Rejected in
  let w := {| ChatScreen.fetch := fetch; ChatScreen.now_user := 1;
              ChatScreen.date_user := 1; ChatScreen.now_bot := 2;
              ChatScreen.date_bot := 2 |} in
  let s := {| ChatScreen.messages := []; ChatScreen.inputText := "  ";
              ChatScreen.isLoading := false; ChatScreen.conversationId := None;
              ChatScreen.snackbar :=
                {| ChatScreen.visible := false; ChatScreen.message := "" |} |} in
  let w' := {| WebApp.post_chat := λ _, WebApp.Failed None;
               WebApp.get_conversations := λ _, WebApp.Failed None;
               WebApp.date_user := "t0"; WebApp.date_bot := "t1" |} in
  let s' := {| WebApp.conversations := []; WebApp.currentConversation := None;
               WebApp.messages := []; WebApp.inputMessage := "question";
               WebApp.loading := true; WebApp.connected := true |} in
  ChatScreen.sendMessage w s = ([], s) ∧ WebApp.sendMessage w' s' = ([], s').
Proof.
  intros fetch w s w' s'. split.
  - apply (proj1 sendMessage_guard_noop w s). left. reflexivity.
  - apply (proj2 sendMessage_guard_noop w' s'). right. reflexivity.
Defined.

(** ** The ingestion request *)

(** C10. When [triggerIngestion] is called without the [incremental]
    argument, the one request it issues goes to [/ingest] with a body whose
    [incremental] property is [true]; the [path] argument is forwarded as
    given, and the property is absent when the argument is omitted. *)
Theorem triggerIngestion_default_incremental :
  ∀ (this : ApiService.t) (T : Type) (fetch : Http.request → Http.fetched T)
    (path : option string),
    ∃ req fields,
      (ApiService.triggerIngestion this fetch path None).1 = [req]
      ∧ Http.url req = ApiService.baseUrl this +:+ "/ingest"
      ∧ Http.method req = Http.POST
      ∧ Http.body req = Some fields
      ∧ Http.property "incremental" fields = Some (Http.JBool true)
      ∧ Http.property "path" fields = Http.JStr <$> path.
Proof.
  intros this T fetch path.
  exists (ApiService.triggerIngestion_request this path None).
  destruct path as [p|].
  - exists [("path", Http.JStr p); ("incremental", Http.JBool true)].
    repeat split; reflexivity.
  - exists [("incremental", Http.JBool true)].
    repeat split; reflexivity.
Qed.

(** ** [ApiService]: errors and results *)

Section ApiServiceContract.
Import Http.
Context {T : Type}.

Lemma guarded_json (fetch : request → fetched T) (req : request) (r : response T) :
  fetch req = Resolved r →
  ApiService.returns_parsed_body r
    (response ← await_fetch fetch req;
     if negb (ok response) then Throws (http_error response)
     else await_json response).
Proof.
  intros Hf. unfold await_fetch. rewrite Hf. cbn.
  unfold await_json, ApiService.returns_parsed_body.
  destruct (ok r), (json_body r) as [v|]; cbn;
    (split_and!; [try done..|intros [??]; split; congruence]);
    try congruence.
Qed.

Lemma guarded_void (fetch : request → fetched T) (req : request) (r : response T) :
  fetch req = Resolved r →
  ApiService.returns_nothing r
    (response ← await_fetch fetch req;
     if negb (ok response) then Throws (http_error response)
     else Returns tt).
Proof.
  intros Hf. unfold await_fetch. rewrite Hf. cbn.
  unfold ApiService.returns_nothing.
  destruct (ok r); cbn; repeat split; done.
Qed.
End ApiServiceContract.

(** C8, as the code has it.  Given the response [r] that [fetch] resolved
    with, every [ApiService] method throws [Error("HTTP error! status: N")]
    when [r.ok] is false.  When [r.ok] is true, [deleteConversation] and
    [triggerIngestion] return without a value, so they throw exactly when
    [r.ok] is false; the six other methods return the result of
    [response.json()], which is the parsed body when the body is JSON, so
    on such a response they throw exactly when [r.ok] is false, and which
    rejects with a [SyntaxError] when the body is not JSON. *)
Theorem ApiService_outcomes (this : ApiService.t) :
  (∀ fetch m r,
     fetch (ApiService.sendMessage_request this m) = Http.Resolved r →
     ApiService.returns_parsed_body r (ApiService.sendMessage this fetch m).2)
  ∧ (∀ fetch r,
     fetch (ApiService.get (ApiService.baseUrl this +:+ "/conversations"))
       = Http.Resolved r →
     ApiService.returns_parsed_body r (ApiService.getConversations this fetch).2)
  ∧ (∀ fetch id r,
     fetch (ApiService.get (ApiService.baseUrl this +:+ "/conversations/" +:+ id))
       = Http.Resolved r →
     ApiService.returns_parsed_body r (ApiService.getConversation this fetch id).2)
  ∧ (∀ (T : Type) (fetch : Http.request → Http.fetched T) id r,
     fetch {| Http.url := ApiService.baseUrl this +:+ "/conversations/" +:+ id;
              Http.method := Http.DELETE; Http.headers := [];
              Http.body := None |} = Http.Resolved r →
     ApiService.returns_nothing r (ApiService.deleteConversation this fetch id).2)
  ∧ (∀ (T : Type) (fetch : Http.request → Http.fetched T) path incremental r,
     fetch (ApiService.triggerIngestion_request this path incremental)
       = Http.Resolved r →
     ApiService.returns_nothing r
       (ApiService.triggerIngestion this fetch path incremental).2)
  ∧ (∀ fetch r,
     fetch (ApiService.get (ApiService.baseUrl this +:+ "/ingest/status"))
       = Http.Resolved r →
     ApiService.returns_parsed_body r (ApiService.getIngestionStatus this fetch).2)
  ∧ (∀ fetch r,
     fetch (ApiService.get (ApiService.baseUrl this +:+ "/stats")) = Http.Resolved r →
     ApiService.returns_parsed_body r (ApiService.getStats this fetch).2)
  ∧ (∀ fetch r,
     fetch (ApiService.get (ApiService.baseUrl this +:+ "/health")) = Http.Resolved r →
     ApiService.returns_parsed_body r (ApiService.checkHealth this fetch).2).
Proof.
  split_and!; intros;
    match goal with
    | H : ?fetch ?req = Http.Resolved ?r |- ApiService.returns_parsed_body _ _ =>
        exact (guarded_json fetch req r H)
    | H : ?fetch ?req = Http.Resolved ?r |- ApiService.returns_nothing _ _ =>
        exact (guarded_void fetch req r H)
    end.
Qed.

(** A [/chat] call answered with status 200 and a JSON body returns that
    body; a [DELETE] answered with status 404 throws. *)
Lemma ApiService_outcomes_witness :
  let body := {| ChatResponse.response := "42"; ChatResponse.conversation_id := "c1";
                 ChatResponse.sources := [] |} in
  let r := {| Http.ok := true; Http.status := 200; Http.json_body := Some body |} in
  let r' : Http.response unit :=
    {| Http.ok := false; Http.status := 404; Http.json_body := None |} in
  let m := {| ChatMessage.message := "q"; ChatMessage.conversation_id := None |} in
  ApiService.returns_parsed_body r
    (ApiService.sendMessage ApiService.apiService (λ _, Http.Resolved r) m).2
  ∧ ApiService.returns_nothing r'
      (ApiService.deleteConversation ApiService.apiService
         (λ _, Http.Resolved r') "c1").2.
Proof.
  intros body r r' m. split.
  - apply (proj1 (ApiService_outcomes ApiService.apiService)). reflexivity.
  - apply (proj1 (proj2 (proj2 (proj2 (ApiService_outcomes ApiService.apiService))))).
    reflexivity.
Defined.

(** C8, as stated, fails: a response with [ok = true] whose body is not
    JSON makes [getStats] throw, so "throws if and only if [ok] is false"
    does not hold of it. *)
Lemma getStats_throws_on_ok_response :
  let r : Http.response SystemStats.t :=
    {| Http.ok := true; Http.status := 200; Http.json_body := None |} in
  ¬ (Http.throws (ApiService.getStats ApiService.apiService
                    (λ _, Http.Resolved r)).2 = true
     ↔ Http.ok r = false).
Proof.
  intros r [H _]. cbn in H. by specialize (H eq_refl).
Qed.

(** ** A failed chat turn *)

Lemma shown_sources_app (l1 l2 : list ChatScreen.Message) :
  (m ← l1 ++ l2; default [] (ChatScreen.sources m))
  = (m ← l1; default [] (ChatScreen.sources m))
    ++ (m ← l2; default [] (ChatScreen.sources m)).
Proof. apply bind_app. Qed.

Lemma web_shown_sources_app (l1 l2 : list WebApp.message) :
  (m ← l1 ++ l2; default [] (WebApp.sources m))
  = (m ← l1; default [] (WebApp.sources m))
    ++ (m ← l2; default [] (WebApp.sources m)).
Proof. apply bind_app. Qed.

(** C1, as the code has it.  When the handler runs and the chat request
    fails, the client displays a fixed error text and attaches no sources
    to it.  [ChatScreen] opens the snackbar with the fixed text and appends
    only the user's own message; the web [App] appends the user's message
    and a bot message holding the fixed apology and no [sources] property.
    In both, the sources on screen are those that were there before the
    call. *)
Theorem failed_turn_shows_fixed_error :
  (∀ (w : ChatScreen.world) (s : ChatScreen.state),
     Js.whitespace_only (ChatScreen.inputText s) = false →
     ChatScreen.isLoading s = false →
     Http.throws
       (ApiService.sendMessage ApiService.apiService (ChatScreen.fetch w)
          {| ChatMessage.message := Js.trim (ChatScreen.inputText s);
             ChatMessage.conversation_id := ChatScreen.conversationId s |}).2 = true →
     let s' := (ChatScreen.sendMessage w s).2 in
     ChatScreen.snackbar s'
       = {| ChatScreen.visible := true;
            ChatScreen.message := ChatScreen.failure_text |}
     ∧ ChatScreen.messages s'
       = ChatScreen.messages s
         ++ [{| ChatScreen.id := pretty (ChatScreen.now_user w);
                ChatScreen.text := Js.trim (ChatScreen.inputText s);
                ChatScreen.isUser := true;
                ChatScreen.timestamp := ChatScreen.date_user w;
                ChatScreen.sources := None |}]
     ∧ ChatScreen.shown_sources s' = ChatScreen.shown_sources s
     ∧ ChatScreen.conversationId s' = ChatScreen.conversationId s
     ∧ ChatScreen.isLoading s' = false)
  ∧ (∀ (w : WebApp.world) (s : WebApp.state) (carried : option WebApp.chat_data),
     Js.whitespace_only (WebApp.inputMessage s) = false →
     WebApp.loading s = false →
     WebApp.post_chat w
       (WebApp.chat_request (Js.trim (WebApp.inputMessage s))
          (WebApp.currentConversation s)) = WebApp.Failed carried →
     let s' := (WebApp.sendMessage w s).2 in
     WebApp.messages s'
       = WebApp.messages s
         ++ [{| WebApp.type := WebApp.user;
                WebApp.content := Js.trim (WebApp.inputMessage s);
                WebApp.sources := None;
                WebApp.timestamp := WebApp.date_user w |};
             {| WebApp.type := WebApp.bot;
                WebApp.content := WebApp.error_text;
                WebApp.sources := None;
                WebApp.timestamp := WebApp.date_bot w |}]
     ∧ WebApp.shown_sources s' = WebApp.shown_sources s
     ∧ WebApp.currentConversation s' = WebApp.currentConversation s
     ∧ WebApp.loading s' = false).
Proof.
  split.
  - intros w s Hin Hload Hthrow s'. subst s'.
    unfold ChatScreen.sendMessage.
    assert (Js.truthy (Js.trim (ChatScreen.inputText s)) = true) as ->.
    { destruct (Js.truthy _) eqn:E; [done|].
      apply truthy_trim_false in E. congruence. }
    rewrite Hload. cbn [negb orb].
    cbn [ChatScreen.text].
    destruct (ApiService.sendMessage _ _ _) as [reqs [v|e]] eqn:E; [done|].
    cbn [snd ChatScreen.snackbar ChatScreen.messages ChatScreen.conversationId
         ChatScreen.isLoading].
    split_and!; try done.
    unfold ChatScreen.shown_sources. cbn [ChatScreen.messages].
    rewrite shown_sources_app. cbn. by rewrite app_nil_r.
  - intros w s carried Hin Hload Hpost s'. subst s'.
    unfold WebApp.sendMessage.
    assert (Js.truthy (Js.trim (WebApp.inputMessage s)) = true) as ->.
    { destruct (Js.truthy _) eqn:E; [done|].
      apply truthy_trim_false in E. congruence. }
    rewrite Hload. cbn [negb orb]. rewrite Hpost.
    cbn [snd WebApp.messages WebApp.currentConversation WebApp.loading].
    split_and!; try done.
    + by rewrite <- app_assoc.
    + unfold WebApp.shown_sources. cbn [WebApp.messages].
      rewrite <- app_assoc, web_shown_sources_app. cbn. by rewrite app_nil_r.
Qed.

(** A backend that answers [/chat] with status 500 and a body that still
    lists what retrieval found. *)
Lemma failed_turn_shows_fixed_error_witness :
  let src := {| Source.content := "note"; Source.metadata := {["filename" := "a.md"]};
                Source.similarity := 0.875%float |} in
  let body := {| ChatResponse.response := ""; ChatResponse.conversation_id := "c1";
                 ChatResponse.sources := [src] |} in
  let r := {| Http.ok := false; Http.status := 500; Http.json_body := Some body |} in
  let w := {| ChatScreen.fetch := λ _, Http.Resolved r; ChatScreen.now_user := 10;
              ChatScreen.date_user := 10; ChatScreen.now_bot := 20;
              ChatScreen.date_bot := 20 |} in
  let s := {| ChatScreen.messages := []; ChatScreen.inputText := " why? ";
              ChatScreen.isLoading := false; ChatScreen.conversationId := None;
              ChatScreen.snackbar :=
                {| ChatScreen.visible := false; ChatScreen.message := "" |} |} in
  ChatScreen.snackbar (ChatScreen.sendMessage w s).2
    = {| ChatScreen.visible := true; ChatScreen.message := ChatScreen.failure_text |}
  ∧ ChatScreen.shown_sources (ChatScreen.sendMessage w s).2 = [].
Proof.
  intros src body r w s.
  pose proof (proj1 failed_turn_shows_fixed_error w s eq_refl eq_refl eq_refl) as H.
  cbv zeta in H. destruct H as (H1 & _ & H3 & _). split; [exact H1|exact H3].
Defined.

(** C1, as stated, fails.  The chat request is answered with an error
    status and a body carrying one retrieved source; the mobile client
    shows the fixed snackbar text and the web client the fixed apology, and
    neither shows the source. *)
Lemma failed_turn_drops_sources :
  let src := {| Source.content := "note"; Source.metadata := {["filename" := "a.md"]};
                Source.similarity := 0.875%float |} in
  let body := {| ChatResponse.response := ""; ChatResponse.conversation_id := "c1";
                 ChatResponse.sources := [src] |} in
  let r := {| Http.ok := false; Http.status := 500; Http.json_body := Some body |} in
  let w := {| ChatScreen.fetch := λ _, Http.Resolved r; ChatScreen.now_user := 10;
              ChatScreen.date_user := 10; ChatScreen.now_bot := 20;
              ChatScreen.date_bot := 20 |} in
  let s := {| ChatScreen.messages := []; ChatScreen.inputText := "why?";
              ChatScreen.isLoading := false; ChatScreen.conversationId := None;
              ChatScreen.snackbar :=
                {| ChatScreen.visible := false; ChatScreen.message := "" |} |} in
  let data := {| WebApp.data_response := "";
                 WebApp.data_sources := Some [{["filename" := "a.md"]}];
                 WebApp.data_conversation_id := Some "c1" |} in
  let w' := {| WebApp.post_chat := λ _, WebApp.Failed (Some data);
               WebApp.get_conversations := λ _, WebApp.Failed None;
               WebApp.date_user := "t0"; WebApp.date_bot := "t1" |} in
  let s' := {| WebApp.conversations := []; WebApp.currentConversation := None;
               WebApp.messages := []; WebApp.inputMessage := "why?";
               WebApp.loading := false; WebApp.connected := true |} in
  ChatResponse.sources body = [src]
  ∧ ChatScreen.messages (ChatScreen.sendMessage w s).2
    = [{| ChatScreen.id := "10"; ChatScreen.text := "why?"; ChatScreen.isUser := true;
          ChatScreen.timestamp := 10; ChatScreen.sources := None |}]
  ∧ ChatScreen.snackbar (ChatScreen.sendMessage w s).2
    = {| ChatScreen.visible := true; ChatScreen.message := ChatScreen.failure_text |}
  ∧ ChatScreen.shown_sources (ChatScreen.sendMessage w s).2 = []
  ∧ WebApp.messages (WebApp.sendMessage w' s').2
    = [{| WebApp.type := WebApp.user; WebApp.content := "why?";
          WebApp.sources := None; WebApp.timestamp := "t0" |};
       {| WebApp.type := WebApp.bot; WebApp.content := WebApp.error_text;
          WebApp.sources := None; WebApp.timestamp := "t1" |}]
  ∧ WebApp.shown_sources (WebApp.sendMessage w' s').2 = [].
Proof.
  intros. split_and!; vm_compute; reflexivity.
Qed.

(** ** A successful chat turn *)

(** C2, as the code has it.  The handler submits the trimmed question with
    the current conversation ID, if any.  When the backend answers with
    [ok] and a JSON body, [ApiService.sendMessage] returns that body, a
    [ChatResponse]: the answer text and an ordered list of sources, each
    with a similarity and a [metadata] object.  The bot message shows the
    answer text and one chip per source, in the order received.  A chip
    shows the filename, which is read from [metadata] and may be missing or
    empty there, in which case the chip shows "Unknown"; after it, between
    " (" and "%)", comes the number [Math.round] gives for the similarity
    times one hundred, a product of doubles. *)
Theorem successful_turn_structure :
  ∀ (w : ChatScreen.world) (s : ChatScreen.state) r (body : ChatResponse.t),
    Js.whitespace_only (ChatScreen.inputText s) = false →
    ChatScreen.isLoading s = false →
    let question :=
      {| ChatMessage.message := Js.trim (ChatScreen.inputText s);
         ChatMessage.conversation_id := ChatScreen.conversationId s |} in
    ChatScreen.fetch w (ApiService.sendMessage_request ApiService.apiService question)
      = Http.Resolved r →
    Http.ok r = true →
    Http.json_body r = Some body →
    (ApiService.sendMessage ApiService.apiService (ChatScreen.fetch w) question).2
      = Http.Returns body
    ∧ (ChatScreen.sendMessage w s).1
      = [ApiService.sendMessage_request ApiService.apiService question]
    ∧ ∃ asked reply,
        ChatScreen.messages (ChatScreen.sendMessage w s).2
          = ChatScreen.messages s ++ [asked; reply]
        ∧ ChatScreen.text asked = Js.trim (ChatScreen.inputText s)
        ∧ ChatScreen.shown_text (ChatScreen.renderMessage reply)
          = ChatResponse.response body
        ∧ ChatScreen.sources reply = Some (ChatResponse.sources body)
        ∧ length (ChatScreen.chips (ChatScreen.renderMessage reply))
          = length (ChatResponse.sources body)
        ∧ ∀ (i : nat) (src : Source.t),
            ChatResponse.sources body !! i = Some src →
            ∃ name,
              ChatScreen.chips (ChatScreen.renderMessage reply) !! i
                = Some [ ChatScreen.Text name;
                         ChatScreen.Text " (";
                         ChatScreen.Number
                           (Js.Math_round (Source.similarity src * 100)%float);
                         ChatScreen.Text "%)" ]
              ∧ match Source.metadata src !! "filename" with
                | Some f => name = if Js.truthy f then f else "Unknown"
                | None => name = "Unknown"
                end.
Proof.
  intros w s r body Hin Hload question Hf Hok Hbody.
  assert (Js.truthy (Js.trim (ChatScreen.inputText s)) = true) as Htr.
  { destruct (Js.truthy _) eqn:E; [done|].
    apply truthy_trim_false in E. congruence. }
  assert ((ApiService.sendMessage ApiService.apiService (ChatScreen.fetch w)
             question)
          = ([ApiService.sendMessage_request ApiService.apiService question],
             Http.Returns body)) as Hcall.
  { unfold ApiService.sendMessage. f_equal.
    unfold Http.await_fetch. rewrite Hf. cbn. rewrite Hok. cbn.
    unfold Http.await_json. by rewrite Hbody. }
  split; [by rewrite Hcall|].
  unfold ChatScreen.sendMessage. rewrite Htr, Hload. cbn [negb orb].
  cbn [ChatScreen.text]. fold question. rewrite Hcall. cbn [fst snd].
  split; [done|].
  eexists _, _. cbn [ChatScreen.messages].
  split; [by rewrite <- app_assoc|].
  cbn [ChatScreen.text]. split; [done|].
  unfold ChatScreen.renderMessage. cbn [ChatScreen.sources ChatScreen.text].
  destruct (ChatResponse.sources body) as [|src0 rest] eqn:Hs;
    cbn [ChatScreen.shown_text ChatScreen.chips].
  - split_and!; try done.
  - split_and!; try done.
    + by rewrite length_fmap.
    + intros i src Hi. rewrite list_lookup_fmap, Hi. cbn.
      exists (Js.or_else (Source.metadata src !! "filename") "Unknown").
      split; [done|].
      unfold Js.or_else. destruct (Source.metadata src !! "filename"); done.
Qed.

(** A turn answered with two sources, the second without a filename. *)
Lemma successful_turn_structure_witness :
  let a := {| Source.content := "alpha"; Source.metadata := {["filename" := "a.md"]};
              Source.similarity := 0.875%float |} in
  let b := {| Source.content := "beta"; Source.metadata := ∅;
              Source.similarity := 0.5%float |} in
  let body := {| ChatResponse.response := "answer"; ChatResponse.conversation_id := "c1";
                 ChatResponse.sources := [a; b] |} in
  let r := {| Http.ok := true; Http.status := 200; Http.json_body := Some body |} in
  let w := {| ChatScreen.fetch := λ _, Http.Resolved r; ChatScreen.now_user := 10;
              ChatScreen.date_user := 10; ChatScreen.now_bot := 20;
              ChatScreen.date_bot := 20 |} in
  let s := {| ChatScreen.messages := []; ChatScreen.inputText := "why?";
              ChatScreen.isLoading := false; ChatScreen.conversationId := Some "c1";
              ChatScreen.snackbar :=
                {| ChatScreen.visible := false; ChatScreen.message := "" |} |} in
  (ChatScreen.sendMessage w s).1
  = [ApiService.sendMessage_request ApiService.apiService
       {| ChatMessage.message := "why?"; ChatMessage.conversation_id := Some "c1" |}].
Proof.
  intros a b body r w s.
  exact (proj1 (proj2
    (successful_turn_structure w s r body eq_refl eq_refl eq_refl eq_refl eq_refl))).
Defined.

(** C2, as stated, fails: a source of a well-formed [ChatResponse] need not
    carry a filename.  Here [metadata] is the empty object and the chip
    shows "Unknown", then the number 50 between " (" and "%)". *)
Lemma source_without_filename :
  let b := {| Source.content := "beta"; Source.metadata := ∅;
              Source.similarity := 0.5%float |} in
  let body := {| ChatResponse.response := "answer"; ChatResponse.conversation_id := "c1";
                 ChatResponse.sources := [b] |} in
  let r := {| Http.ok := true; Http.status := 200; Http.json_body := Some body |} in
  let w := {| ChatScreen.fetch := λ _, Http.Resolved r; ChatScreen.now_user := 10;
              ChatScreen.date_user := 10; ChatScreen.now_bot := 20;
              ChatScreen.date_bot := 20 |} in
  let s := {| ChatScreen.messages := []; ChatScreen.inputText := "why?";
              ChatScreen.isLoading := false; ChatScreen.conversationId := None;
              ChatScreen.snackbar :=
                {| ChatScreen.visible := false; ChatScreen.message := "" |} |} in
  (ApiService.sendMessage ApiService.apiService (ChatScreen.fetch w)
     {| ChatMessage.message := "why?"; ChatMessage.conversation_id := None |}).2
    = Http.Returns body
  ∧ Source.metadata b !! "filename" = None
  ∧ ChatScreen.renderMessage <$> last (ChatScreen.messages (ChatScreen.sendMessage w s).2)
    = Some {| ChatScreen.on_user_side := false;
              ChatScreen.shown_text := "answer";
              ChatScreen.sources_title := Some "Sources:";
              ChatScreen.chips :=
                [[ ChatScreen.Text "Unknown"; ChatScreen.Text " (";
                   ChatScreen.Number 50%float; ChatScreen.Text "%)" ]] |}.
Proof.
  intros. split_and!; vm_compute; reflexivity.
Qed.

(** The number on a chip comes from a product of doubles: the double
    nearest 0.285 times 100 is 28.499999999999996 and shows as 28, and the
    double nearest 0.995 times 100 is 99.5 and shows as 100.  [Math.round]
    itself takes a half upwards, keeps the sign of a negative argument that
    rounds to zero, and does not add one half in doubles: the largest
    double below one half rounds to 0.  The three doubles that are not
    decimal fractions are written in hexadecimal. *)
Lemma chip_number_of_doubles :
  ChatScreen.chip {| Source.content := "note"; Source.metadata := ∅;
                     Source.similarity := 0x1.23d70a3d70a3dp-2%float |}
  = [ ChatScreen.Text "Unknown"; ChatScreen.Text " (";
      ChatScreen.Number 28%float; ChatScreen.Text "%)" ]
  ∧ Js.Math_round (0x1.fd70a3d70a3d7p-1 * 100)%float = 100%float
  ∧ Js.Math_round 2.5%float = 3%float
  ∧ Js.Math_round (-2.5)%float = (-2)%float
  ∧ Js.Math_round (-0.5)%float = (-0)%float
  ∧ Js.Math_round 0x1.fffffffffffffp-2%float = 0%float
  ∧ Js.Math_round 4503599627370497%float = 4503599627370497%float
  ∧ Js.Math_round nan = nan
  ∧ Js.Math_round infinity = infinity.
Proof.
  split_and!; vm_compute; reflexivity.
Qed.

(** ** The Vector Index: ranking *)

Section Ranking.
Import Core.


Lemma id_lt_irrefl a : ¬ id_lt a a.
Proof. unfold id_lt. apply irreflexivity, _. Qed.

Lemma id_lt_trans a b c : id_lt a b → id_lt b c → id_lt a c.
Proof. unfold id_lt. apply transitivity. Qed.


Lemma ranks_before_irrefl a : ¬ ranks_before a a.
Proof.
  intros [H|[_ H]]; [by apply Rlt_irrefl in H|by apply id_lt_irrefl in H].
Qed.

Lemma ranks_before_trans a b c :
  ranks_before a b → ranks_before b c → ranks_before a c.
Proof.
  unfold ranks_before. intros [H1|[H1 H1']] [H2|[H2 H2']].
  - left. lra.
  - left. lra.
  - left. lra.
  - right. split; [lra|]. by eapply id_lt_trans.
Qed.


Lemma not_after_total a b : not_after a b ∨ not_after b a.
Proof.
  unfold not_after. destruct (decide (ranks_before b a)) as [H|H]; [|by left].
  right. intros H'. by apply (ranks_before_irrefl a), (ranks_before_trans a b a).
Qed.






End Ranking.

(** ** The Vector Index: cosine similarity *)

Section Cosine.
Import Core.
Local Open Scope R_scope.







End Cosine.

(** ** The Vector Index: search *)

Section Search.
Import Core.

Lemma filter_all {A} (P : A → Prop) `{!∀ x, Decision (P x)} (l : list A) :
  (∀ x, P x) → filter P l = l.
Proof.
  intros HP. induction l as [|x l IH]; [done|].
  rewrite filter_cons_True by done. by rewrite IH.
Qed.

Lemma search_unfiltered q k ix :
  search q k None ix = take k (rank (scored q ix)).
Proof. unfold search, scored. by rewrite filter_all. Qed.








End Search.




(** ** The Retriever *)

(** C6. For every query text and every [k] (and every minimum similarity),
    [retrieve] on an index without entries returns the empty result.
    [retrieve] is a total function, so there is no error to raise. *)
Theorem retrieve_empty_index :
  ∀ (env : Core.Env) (query_text : string) (k : nat) (min_similarity : option R)
    (model : string),
    Core.retrieve env query_text k min_similarity
      {| Core.model := model; Core.entries := ∅ |} = [].
Proof.
  intros env query_text k floor model.
  unfold Core.retrieve. rewrite search_unfiltered.
  unfold Core.scored. cbn [Core.entries]. rewrite map_to_list_empty. cbn.
  rewrite take_nil. by destruct floor.
Qed.

(** ** The Context Assembler *)

Section Assembler.
Import Core.
Context (env : Env).

Lemma append_cons c (s t : string) : String c s +:+ t = String c (s +:+ t).
Proof. reflexivity. Qed.

Lemma length_append (s t : string) :
  String.length (s +:+ t) = String.length s + String.length t.
Proof.
  induction s as [|c s IH]; [done|].
  rewrite append_cons. cbn [String.length]. by rewrite IH.
Qed.

Lemma append_assoc (s t u : string) : (s +:+ t) +:+ u = s +:+ (t +:+ u).
Proof.
  induction s as [|c s IH]; [done|]. rewrite !append_cons. by rewrite IH.
Qed.

Lemma append_empty_r (s : string) : s +:+ "" = s.
Proof.
  induction s as [|c s IH]; [done|]. rewrite append_cons. by rewrite IH.
Qed.

Lemma concat_empty_app (l1 l2 : list string) :
  String.concat "" (l1 ++ l2) = String.concat "" l1 +:+ String.concat "" l2.
Proof.
  induction l1 as [|s l1 IH]; [done|].
  destruct l1 as [|s' l1].
  - destruct l2 as [|t l2]; [|done].
    change (String.concat "" ([s] ++ [])) with s.
    change (String.concat "" [s]) with s.
    change (String.concat "" []) with "". by rewrite append_empty_r.
  - change (String.concat "" ((s :: s' :: l1) ++ l2))
      with (s +:+ "" +:+ String.concat "" ((s' :: l1) ++ l2)).
    change (String.concat "" (s :: s' :: l1))
      with (s +:+ "" +:+ String.concat "" (s' :: l1)).
    rewrite IH. change ("" +:+ ?x) with x. by rewrite append_assoc.
Qed.

Lemma concat_empty_cons (s : string) (l : list string) :
  String.concat "" (s :: l) = s +:+ String.concat "" l.
Proof. apply (concat_empty_app [s] l). Qed.

(** The combined length of the chunks' texts. *)
Lemma length_rendered_chunks (chunks : list retrieved) :
  sum_list ((λ c, String.length (e_text (r_chunk c))) <$> chunks)
  ≤ String.length (String.concat "" (render_chunk <$> chunks)).
Proof.
  induction chunks as [|c chunks IH]; [cbn; lia|].
  rewrite !fmap_cons, concat_empty_cons, length_append.
  change (sum_list (?x :: ?l)) with (x + sum_list l).
  unfold render_chunk at 1. rewrite !length_append. lia.
Qed.

Lemma length_prompt_lower_bound question history chunks :
  sum_list ((λ c, String.length (e_text (r_chunk c))) <$> chunks)
  ≤ String.length (render_prompt question history chunks).
Proof.
  unfold render_prompt. rewrite !length_append.
  pose proof (length_rendered_chunks chunks). lia.
Qed.

Lemma keep_take question history chunks n :
  ∃ m, m ≤ n ∧ keep env question history chunks n = take m chunks
       ∧ (fits env question history (take m chunks) = true ∨ m = 0)
       ∧ ∀ i, m < i ≤ n → fits env question history (take i chunks) = false.
Proof.
  induction n as [|n IH]; cbn.
  - exists 0. rewrite take_0. destruct (fits _ _ _ []); split_and!; auto; lia.
  - destruct (fits env question history (take (S n) chunks)) eqn:Hf.
    + exists (S n). split_and!; auto. lia.
    + destruct IH as (m & Hm & Hk & Hfit & Hmax).
      exists m. split_and!; auto.
      intros i Hi. destruct (decide (i = S n)) as [->|]; [done|].
      apply Hmax. lia.
Qed.

End Assembler.

Section Truncation.
Import Core.
Context (env : Env).

(** A chunk that is in the prompt is there with its whole text. *)
Lemma render_prompt_contains question history chunks c :
  c ∈ chunks →
  ∃ before after,
    render_prompt question history chunks
    = before +:+ e_text (r_chunk c) +:+ after.
Proof.
  intros [l1 [l2 ->]]%list_elem_of_split.
  exists ("Context:
" +:+ String.concat "" (render_chunk <$> l1)
          +:+ "[source: " +:+ e_filename (r_chunk c) +:+ "]").
  exists ("
" +:+ String.concat "" (render_chunk <$> l2) +:+ "History:
" +:+ String.concat "
" history +:+ "
Question: " +:+ question).
  unfold render_prompt.
  rewrite fmap_app, fmap_cons, concat_empty_app, concat_empty_cons.
  unfold render_chunk at 2. by rewrite !append_assoc.
Qed.

Lemma included_spec question history result :
  ∃ m, m ≤ length result
       ∧ included env question history result = take m result
       ∧ (fits env question history (take m result) = true ∨ m = 0)
       ∧ ∀ i, m < i ≤ length result →
              fits env question history (take i result) = false.
Proof. apply keep_take. Qed.

Lemma fits_false question history chunks :
  fits env question history chunks = false ↔
  prompt_budget env < String.length (render_prompt question history chunks).
Proof.
  unfold fits. rewrite bool_decide_eq_false. lia.
Qed.

End Truncation.

(** C5.  When the combined length of the retrieved chunks exceeds the
    prompt budget, the chunks in the prompt are a proper prefix of the
    ranked retrieval result: at least the lowest-ranked chunk is omitted,
    and keeping any further chunk of the ranking would exceed the budget.
    The prompt is the fixed template over the kept chunks, each present
    with its whole text, and it fits the budget unless no chunk is kept.
    The source list of the structured answer is the duplicate-free list of
    the (filename, similarity) pairs of the kept chunks: every source comes
    from a chunk in the prompt, and none is drawn from an omitted chunk. *)
Theorem prompt_truncation :
  ∀ (env : Core.Env) (question : string) (history : list string)
    (result : list Core.retrieved) (raw_model_output : string),
    Core.prompt_budget env
      < sum_list ((λ c, String.length (Core.e_text (Core.r_chunk c))) <$> result) →
    let in_prompt := Core.included env question history result in
    let prompt := Core.build_prompt env question result history in
    let cited := Core.sources (Core.parse_response raw_model_output in_prompt) in
    ∃ omitted,
      result = in_prompt ++ omitted
      ∧ omitted ≠ []
      ∧ prompt = Core.render_prompt question history in_prompt
      ∧ (∀ c, c ∈ in_prompt →
           ∃ before after,
             prompt = before +:+ Core.e_text (Core.r_chunk c) +:+ after)
      ∧ (in_prompt = [] ∨ String.length prompt ≤ Core.prompt_budget env)
      ∧ (∀ n, length in_prompt < n ≤ length result →
           Core.prompt_budget env
             < String.length (Core.render_prompt question history (take n result)))
      ∧ cited = remove_dups (Core.citation <$> in_prompt)
      ∧ NoDup cited
      ∧ (∀ s, s ∈ cited ↔ ∃ c, c ∈ in_prompt ∧ Core.citation c = s).
Proof.
  intros env question history result raw Hlong in_prompt prompt cited.
  destruct (included_spec env question history result)
    as (m & Hm & Hinc & Hfit & Hmax).
  fold in_prompt in Hinc.
  assert (Core.fits env question history result = false) as Hall.
  { apply fits_false.
    pose proof (length_prompt_lower_bound question history result). lia. }
  assert (m < length result) as Hlt.
  { destruct (decide (m = length result)) as [->|]; [|lia].
    rewrite firstn_all in Hfit. destruct Hfit as [Hfit|Hz]; [congruence|].
    destruct result; [cbn in Hlong; lia|done]. }
  assert (length in_prompt = m) as Hlen by (rewrite Hinc, length_take; lia).
  exists (drop m result). split_and!.
  - by rewrite Hinc, take_drop.
  - intros Hd. apply (f_equal length) in Hd. rewrite length_drop in Hd.
    cbn in Hd. lia.
  - done.
  - intros c Hc. subst prompt. unfold Core.build_prompt. fold in_prompt.
    by apply render_prompt_contains.
  - destruct Hfit as [Hfit| ->].
    + right. subst prompt. unfold Core.build_prompt. fold in_prompt.
      rewrite Hinc. unfold Core.fits in Hfit. by apply bool_decide_eq_true in Hfit.
    + left. by rewrite Hinc.
  - intros n Hn. apply fits_false, Hmax. lia.
  - done.
  - apply NoDup_remove_dups.
  - intros s. subst cited. cbn. rewrite elem_of_remove_dups, list_elem_of_fmap.
    split; intros [c [? ?]]; exists c; done.
Qed.

(** On the query path the sources handed back, with the answer or with a
    failed completion, are those of the chunks that went into the prompt. *)
Lemma ask_cites_prompt_chunks (env : Core.Env) (question : string)
    (history : list string) (k : nat) (floor : option R) (ix : Core.Index) :
  let in_prompt :=
    Core.included env question history (Core.retrieve env question k floor ix) in
  match Core.ask env question history k floor ix with
  | Core.Answered a => Core.sources a = remove_dups (Core.citation <$> in_prompt)
  | Core.ModelCallFailure found => found = remove_dups (Core.citation <$> in_prompt)
  end.
Proof.
  intros in_prompt. unfold Core.ask. fold in_prompt.
  by destruct (Core.complete env _ history).
Qed.

(** Two retrieved chunks of fifty characters each against a budget of
    ninety-six: the template with both chunks is too long, the lower-ranked
    chunk goes. *)
Lemma prompt_truncation_witness :
  let env := {| Core.hash := λ _, 0%N; Core.extract := λ f, Some (Core.bytes f);
                Core.split := λ _, []; Core.embed_query := λ _, [];
                Core.embed_ok := λ _, true; Core.complete := λ _ _, None;
                Core.embedding_model := "all-MiniLM-L6-v2";
                Core.prompt_budget := 96 |} in
  let chunk name text :=
    {| Core.e_vector := []; Core.e_text := text; Core.e_start := 0;
       Core.e_stop := 50; Core.e_filename := name; Core.e_type := Core.Markdown |} in
  let result :=
    [ {| Core.r_id := ("/notes/a.md", 0);
         Core.r_chunk := chunk "a.md" "aaaaaaaaaaaaaaaaaaaaaaaaaaaaaaaaaaaaaaaaaaaaaaaaaa";
         Core.r_score := 1%R |};
      {| Core.r_id := ("/notes/b.md", 0);
         Core.r_chunk := chunk "b.md" "bbbbbbbbbbbbbbbbbbbbbbbbbbbbbbbbbbbbbbbbbbbbbbbbbb";
         Core.r_score := 0%R |} ] in
  ∃ omitted,
    result = Core.included env "q" [] result ++ omitted ∧ omitted ≠ [].
Proof.
  intros env chunk result.
  destruct (prompt_truncation env "q" [] result "") as (omitted & H1 & H2 & _).
  - vm_compute. lia.
  - exists omitted. split; [exact H1|exact H2].
Defined.

(** ** The Vector Index: upsert *)

Section Upsert.
Import Core.

Lemma foldl_insert_union (es : list (chunk_id * entry)) (m : gmap chunk_id entry) :
  foldl (λ m e, <[e.1 := e.2]> m) m es = list_to_map (reverse es) ∪ m.
Proof.
  revert m. induction es as [|[i x] es IH]; intros m.
  - cbn. by rewrite (left_id_L ∅ (∪)).
  - rewrite reverse_cons, list_to_map_app. cbn [foldl fst snd]. rewrite IH.
    rewrite <- (assoc_L (∪)). f_equal.
    cbn. by rewrite insert_union_singleton_l, insert_empty.
Qed.

Lemma entries_upsert es ix :
  entries (upsert es ix) = list_to_map (reverse es) ∪ entries ix.
Proof. apply foldl_insert_union. Qed.

Lemma upsert_idempotent es ix : upsert es (upsert es ix) = upsert es ix.
Proof.
  unfold upsert at 1. cbn [model]. rewrite foldl_insert_union, entries_upsert.
  rewrite (assoc_L (∪)), (idemp_L (∪)).
  unfold upsert. f_equal. by rewrite foldl_insert_union.
Qed.

Lemma upsert_one_lookup id e ix id' :
  entries (upsert [(id, e)] ix) !! id'
  = if decide (id = id') then Some e else entries ix !! id'.
Proof. cbn. apply lookup_insert. Qed.

End Upsert.

(** ** The Ingestion Pipeline: one pass *)

Section Pass.
Import Core.
Context (env : Env) (fs : gmap path file).

Lemma process_missing st p : fs !! p = None → process_document env fs st p = st.
Proof. intros H. unfold process_document. by rewrite H. Qed.

Lemma model_process st p :
  model (index (process_document env fs st p)) = model (index st).
Proof.
  unfold process_document. destruct (fs !! p) as [f|]; [|done].
  by destruct (doc_entries env p f).
Qed.

Lemma entries_process st p :
  entries (index (process_document env fs st p))
  = list_to_map (reverse (produced env fs p)) ∪ entries (index st).
Proof.
  unfold process_document, produced. destruct (fs !! p) as [f|]; cbn.
  - destruct (doc_entries env p f) as [es|]; cbn.
    + apply foldl_insert_union.
    + by rewrite (left_id_L ∅ (∪)).
  - by rewrite (left_id_L ∅ (∪)).
Qed.

Lemma tracker_process st p q :
  tracker (process_document env fs st p) !! q
  = if decide (p = q) then row_after env fs q (tracker st !! q)
    else tracker st !! q.
Proof.
  unfold process_document, row_after.
  case_decide as Hpq; [subst q|].
  - destruct (fs !! p) as [f|]; [|done].
    destruct (doc_entries env p f) as [es|]; cbn.
    + by rewrite lookup_insert_eq.
    + by rewrite lookup_delete_eq.
  - destruct (fs !! p) as [f|]; [|done].
    destruct (doc_entries env p f) as [es|]; cbn.
    + by rewrite lookup_insert_ne.
    + by rewrite lookup_delete_ne.
Qed.

Lemma row_after_idem p old :
  row_after env fs p (row_after env fs p old) = row_after env fs p old.
Proof. unfold row_after. by destruct (fs !! p). Qed.

Lemma model_foldl_process st l :
  model (index (foldl (process_document env fs) st l)) = model (index st).
Proof.
  revert st. induction l as [|p l IH]; intros st; cbn; [done|].
  by rewrite IH, model_process.
Qed.

Lemma entries_foldl_process st l :
  entries (index (foldl (process_document env fs) st l))
  = list_to_map (reverse (l ≫= produced env fs)) ∪ entries (index st).
Proof.
  revert st. induction l as [|p l IH]; intros st.
  - cbn. by rewrite (left_id_L ∅ (∪)).
  - cbn [foldl]. rewrite IH, entries_process, bind_cons, reverse_app, list_to_map_app.
    by rewrite (assoc_L (∪)).
Qed.

Lemma tracker_foldl_process st l q :
  tracker (foldl (process_document env fs) st l) !! q
  = if decide (q ∈ l) then row_after env fs q (tracker st !! q)
    else tracker st !! q.
Proof.
  revert st. induction l as [|p l IH]; intros st.
  - cbn. case_decide as H; [by apply not_elem_of_nil in H|done].
  - cbn [foldl]. rewrite IH, tracker_process.
    destruct (decide (p = q)) as [->|Hpq], (decide (q ∈ l)) as [Hl|Hl].
    + rewrite decide_True by (apply elem_of_cons; auto). apply row_after_idem.
    + by rewrite decide_True by (apply elem_of_cons; auto).
    + by rewrite decide_True by (apply elem_of_cons; auto).
    + by rewrite decide_False by (intros [?|?]%elem_of_cons; done).
Qed.

Lemma tracker_reprocess st p q :
  tracker (reprocess_document env fs st p) !! q
  = if decide (p = q) then row_after env fs q (tracker st !! q)
    else tracker st !! q.
Proof. unfold reprocess_document. by rewrite tracker_process. Qed.

Lemma tracker_foldl_reprocess st l q :
  tracker (foldl (reprocess_document env fs) st l) !! q
  = if decide (q ∈ l) then row_after env fs q (tracker st !! q)
    else tracker st !! q.
Proof.
  revert st. induction l as [|p l IH]; intros st.
  - cbn. case_decide as H; [by apply not_elem_of_nil in H|done].
  - cbn [foldl]. rewrite IH, tracker_reprocess.
    destruct (decide (p = q)) as [->|Hpq], (decide (q ∈ l)) as [Hl|Hl].
    + rewrite decide_True by (apply elem_of_cons; auto). apply row_after_idem.
    + by rewrite decide_True by (apply elem_of_cons; auto).
    + by rewrite decide_True by (apply elem_of_cons; auto).
    + by rewrite decide_False by (intros [?|?]%elem_of_cons; done).
Qed.

Lemma tracker_foldl_remove st l q :
  tracker (foldl remove_document st l) !! q
  = if decide (q ∈ l) then None else tracker st !! q.
Proof.
  revert st. induction l as [|p l IH]; intros st.
  - cbn. case_decide as H; [by apply not_elem_of_nil in H|done].
  - cbn [foldl]. rewrite IH. cbn [remove_document tracker].
    destruct (decide (p = q)) as [->|Hpq], (decide (q ∈ l)) as [Hl|Hl].
    + by rewrite decide_True by (apply elem_of_cons; auto).
    + rewrite decide_True by (apply elem_of_cons; auto). apply lookup_delete_eq.
    + by rewrite decide_True by (apply elem_of_cons; auto).
    + rewrite decide_False by (intros [?|?]%elem_of_cons; done).
      by apply lookup_delete_ne.
Qed.

End Pass.

(** ** The Document Tracker: scan *)

Section Scan.
Import Core.
Context (env : Env) (fs : gmap path file).

Lemma elem_of_keys {A} (m : gmap path A) p :
  p ∈ (map_to_list m).*1 ↔ is_Some (m !! p).
Proof.
  rewrite list_elem_of_fmap. split.
  - intros [[q x] [-> H]]. apply elem_of_map_to_list in H. by exists x.
  - intros [x H]. exists (p, x). split; [done|]. by apply elem_of_map_to_list.
Qed.

Lemma elem_of_added t p :
  p ∈ added (scan env Incremental fs t) ↔ is_Some (fs !! p) ∧ t !! p = None.
Proof.
  cbn. rewrite list_elem_of_filter, elem_of_keys.
  rewrite <- eq_None_not_Some. tauto.
Qed.

Lemma elem_of_modified t p :
  p ∈ modified (scan env Incremental fs t) ↔
  ∃ f x, fs !! p = Some f ∧ t !! p = Some x
         ∧ t_fingerprint x ≠ fingerprint_of env f.
Proof.
  cbn. rewrite list_elem_of_fmap. split.
  - intros [[q f] [-> [Hm Hin]%list_elem_of_filter]].
    apply elem_of_map_to_list in Hin. unfold is_modified in Hm. cbn in *.
    destruct (t !! q) as [x|] eqn:Hx; [|done].
    apply bool_decide_eq_true in Hm. by exists f, x.
  - intros (f & x & Hf & Hx & Hne). exists (p, f). split; [done|].
    apply list_elem_of_filter. split; [|by apply elem_of_map_to_list].
    unfold is_modified. cbn. rewrite Hx. by apply bool_decide_eq_true.
Qed.

Lemma elem_of_removed t p :
  p ∈ removed (scan env Incremental fs t) ↔ is_Some (t !! p) ∧ fs !! p = None.
Proof.
  cbn. rewrite list_elem_of_filter, elem_of_keys.
  rewrite <- eq_None_not_Some. tauto.
Qed.

Lemma filter_none {A} (P : A → Prop) `{!∀ x, Decision (P x)} (l : list A) :
  (∀ x, x ∈ l → ¬ P x) → filter P l = [].
Proof.
  intros HP. induction l as [|x l IH]; [done|].
  rewrite filter_cons_False by (apply HP; by left).
  apply IH. intros y Hy. apply HP. by right.
Qed.

Lemma bind_none {A B} (f : A → list B) (l : list A) :
  (∀ x, x ∈ l → f x = []) → l ≫= f = [].
Proof.
  intros H. induction l as [|x l IH]; [done|].
  rewrite bind_cons, H by (by left). cbn.
  apply IH. intros y Hy. apply H. by right.
Qed.

Lemma settled_after_incremental st :
  settled env fs (tracker (run_pass env Incremental fs st)).
Proof.
  unfold run_pass.
  set (r := scan env Incremental fs (tracker st)).
  set (st0 := {| tracker := tracker st; index := index st; failed := [] |}).
  split.
  - intros q x. rewrite tracker_foldl_process.
    destruct (decide (q ∈ added r)) as [Ha|Ha].
    { apply elem_of_added in Ha as [[f Hf] _].
      unfold row_after. rewrite Hf. intros Hx. exists f. split; [done|].
      destruct (doc_entries env q f); [|done]. by injection Hx as <-. }
    rewrite tracker_foldl_reprocess.
    destruct (decide (q ∈ modified r)) as [Hm|Hm].
    { apply elem_of_modified in Hm as (f & y & Hf & _ & _).
      unfold row_after. rewrite Hf. intros Hx. exists f. split; [done|].
      destruct (doc_entries env q f); [|done]. by injection Hx as <-. }
    rewrite tracker_foldl_remove.
    destruct (decide (q ∈ removed r)) as [Hr|Hr]; [done|].
    cbn [tracker st0]. intros Hx.
    destruct (fs !! q) as [f|] eqn:Hf.
    + exists f. split; [done|].
      destruct (decide (t_fingerprint x = fingerprint_of env f)) as [|Hne]; [done|].
      exfalso. apply Hm, elem_of_modified. by exists f, x.
    + exfalso. apply Hr, elem_of_removed. split; [by exists x|done].
  - intros q f Hf. rewrite tracker_foldl_process.
    destruct (decide (q ∈ added r)) as [Ha|Ha].
    { unfold row_after. rewrite Hf. by intros ?%fmap_None. }
    rewrite tracker_foldl_reprocess.
    destruct (decide (q ∈ modified r)) as [Hm|Hm].
    { unfold row_after. rewrite Hf. by intros ?%fmap_None. }
    rewrite tracker_foldl_remove.
    destruct (decide (q ∈ removed r)) as [Hr|Hr].
    { apply elem_of_removed in Hr as [_ Hr]. congruence. }
    cbn [tracker st0]. intros Hx.
    exfalso. apply Ha, elem_of_added. split; [by exists f|done].
Qed.

End Scan.

(** ** The Ingestion Pipeline: a second pass *)

Section SecondPass.
Import Core.
Context (env : Env) (fs : gmap path file).

Lemma Index_eq (a b : Index) : model a = model b → entries a = entries b → a = b.
Proof. destruct a, b; cbn. by intros -> ->. Qed.

(** On a settled table an incremental pass finds nothing removed,
    nothing modified, and only failing documents to add: it leaves the
    table and the index as they are. *)
Lemma incremental_on_settled st :
  settled env fs (tracker st) →
  tracker (run_pass env Incremental fs st) = tracker st
  ∧ index (run_pass env Incremental fs st) = index st.
Proof.
  intros [Hrows Hfail]. unfold run_pass.
  set (r := scan env Incremental fs (tracker st)).
  set (st0 := {| tracker := tracker st; index := index st; failed := [] |}).
  assert (removed r = []) as ->.
  { cbn. apply filter_none. intros p [x Hx]%elem_of_keys.
    destruct (Hrows p x Hx) as [f [Hf _]]. rewrite Hf. intros H. by apply H. }
  assert (modified r = []) as ->.
  { cbn. rewrite filter_none; [done|].
    intros [p f] Hin%elem_of_map_to_list. unfold is_modified. cbn.
    destruct (tracker st !! p) as [x|] eqn:Hx; [|done].
    destruct (Hrows p x Hx) as [f' [Hf' Hfp]].
    assert (f' = f) as -> by congruence.
    rewrite bool_decide_eq_true. by intros H. }
  cbn [foldl].
  assert (∀ p, p ∈ added r → produced env fs p = []) as Hnone.
  { intros p [[f Hf] Hp]%elem_of_added. unfold produced. rewrite Hf. cbn.
    by rewrite (Hfail p f Hf Hp). }
  split.
  - apply map_eq. intros q. rewrite tracker_foldl_process. cbn [tracker st0].
    case_decide as Hq; [|done].
    apply elem_of_added in Hq as [[f Hf] Hq].
    unfold row_after. by rewrite Hf, (Hfail q f Hf Hq), Hq.
  - apply Index_eq.
    + by rewrite model_foldl_process.
    + rewrite entries_foldl_process, (bind_none _ _ Hnone). cbn.
      by rewrite (left_id_L ∅ (∪)).
Qed.

Lemma full_unfold st :
  run_pass env FullRebuild fs st
  = foldl (process_document env fs)
      {| tracker := tracker st; index := index st; failed := [] |}
      (map_to_list fs).*1.
Proof. done. Qed.

Lemma full_twice st :
  let once := run_pass env FullRebuild fs st in
  tracker (run_pass env FullRebuild fs once) = tracker once
  ∧ index (run_pass env FullRebuild fs once) = index once.
Proof.
  intros once. subst once. rewrite !full_unfold. split.
  - apply map_eq. intros q. rewrite !tracker_foldl_process. cbn [tracker].
    rewrite !tracker_foldl_process. cbn [tracker].
    case_decide; [|done]. apply row_after_idem.
  - apply Index_eq.
    + rewrite !model_foldl_process. cbn [index]. by rewrite model_foldl_process.
    + rewrite !entries_foldl_process. cbn [index].
      rewrite entries_foldl_process.
      by rewrite (assoc_L (∪)), (idemp_L (∪)).
Qed.

End SecondPass.

(** C4.  Running a pass a second time over the same document set, in
    either mode and from any state, leaves the Vector Index and the
    tracker's table exactly as the first run left them: the set of chunk
    IDs is the same, and no chunk ID is held twice.  [upsert] inserts or
    replaces by chunk ID and is idempotent. *)
Theorem ingestion_idempotent :
  ∀ (env : Core.Env) (m : Core.mode) (fs : gmap Core.path Core.file)
    (st : Core.state),
    let once := Core.run_pass env m fs st in
    let twice := Core.run_pass env m fs once in
    Core.index twice = Core.index once
    ∧ Core.tracker twice = Core.tracker once
    ∧ dom (Core.entries (Core.index twice)) = dom (Core.entries (Core.index once))
    ∧ NoDup (map_to_list (Core.entries (Core.index twice))).*1
    ∧ (∀ es ix, Core.upsert es (Core.upsert es ix) = Core.upsert es ix)
    ∧ (∀ id e ix id',
         Core.entries (Core.upsert [(id, e)] ix) !! id'
         = if decide (id = id') then Some e else Core.entries ix !! id').
Proof.
  intros env m fs st once twice.
  assert (Core.tracker twice = Core.tracker once
          ∧ Core.index twice = Core.index once) as [Ht Hi].
  { subst twice once. destruct m.
    - apply incremental_on_settled, settled_after_incremental.
    - apply full_twice. }
  split_and!; try done.
  - by rewrite Hi.
  - apply NoDup_fst_map_to_list.
  - apply upsert_idempotent.
  - apply upsert_one_lookup.
Qed.

(** ** The index after a first pass *)

Section FirstPass.
Import Core.
Context (env : Env) (fs : gmap path file).










End FirstPass.

(** ** Index statistics *)

Section Stats.
Import Core.
Context (env : Env) (fs : gmap path file).







End Stats.

Section StatsOfIndex.
Import Core.
Context (ix : Index).




End StatsOfIndex.




(** * Further properties of the clients *)

(** ** [trim] *)

Lemma trimEnd_whitespace_only s :
  Js.whitespace_only s = true → Js.trimEnd s = EmptyString.
Proof.
  induction s as [|c s IH]; [done|]. cbn.
  intros [Hc Hs]%andb_true_iff. by rewrite (IH Hs), Hc.
Qed.

Lemma trimEnd_cons c s :
  Js.trimEnd (String c s)
  = if Js.whitespace_only (String c s) then EmptyString
    else String c (Js.trimEnd s).
Proof.
  cbn. destruct (Js.trimEnd s) as [|d t] eqn:E.
  - rewrite (trimEnd_empty s E), andb_true_r. by destruct (Js.is_whitespace c).
  - destruct (Js.whitespace_only s) eqn:Hs.
    + by rewrite (trimEnd_whitespace_only s Hs) in E.
    + by rewrite andb_false_r.
Qed.

(** What [trimStart] removes is white space, and what it leaves does not
    start with white space. *)
Lemma trimStart_split s :
  ∃ pre, s = pre +:+ Js.trimStart s ∧ Js.whitespace_only pre = true.
Proof.
  induction s as [|c s (pre & Hs & Hpre)]; [by exists EmptyString|]. cbn.
  destruct (Js.is_whitespace c) eqn:Hc.
  - exists (String c pre). cbn. rewrite Hc, Hpre. split; [|done].
    rewrite append_cons. by rewrite <- Hs.
  - by exists EmptyString.
Qed.

Lemma trimEnd_split s :
  ∃ post, s = Js.trimEnd s +:+ post ∧ Js.whitespace_only post = true.
Proof.
  induction s as [|c s (post & Hs & Hpost)]; [by exists EmptyString|].
  rewrite trimEnd_cons.
  destruct (Js.whitespace_only (String c s)) eqn:Hw.
  - by exists (String c s).
  - exists post. split; [|done]. rewrite append_cons. by rewrite <- Hs.
Qed.

Lemma trimEnd_head s c t :
  Js.trimEnd s = String c t → ∃ t', s = String c t'.
Proof.
  destruct s as [|d s]; [done|]. rewrite trimEnd_cons.
  destruct (Js.whitespace_only _); [done|]. intros [= -> _]. by eexists.
Qed.

(** The last code unit of a trimmed string is not white space. *)
Lemma trimEnd_last s t c :
  Js.trimEnd s = t +:+ String c EmptyString → Js.is_whitespace c = false.
Proof.
  revert t. induction s as [|d s IH]; intros t.
  - by destruct t.
  - rewrite trimEnd_cons.
    destruct (Js.whitespace_only (String d s)) eqn:Hw; [by destruct t|].
    destruct t as [|e t]; rewrite ?append_cons.
    + intros [= -> H]. cbn in Hw.
      rewrite (trimEnd_empty s H), andb_true_r in Hw. done.
    + intros [= -> H]. by eapply IH.
Qed.

Lemma trimEnd_idem s : Js.trimEnd (Js.trimEnd s) = Js.trimEnd s.
Proof.
  induction s as [|c s IH]; [done|]. rewrite trimEnd_cons.
  destruct (Js.whitespace_only (String c s)) eqn:Hw; [done|].
  rewrite trimEnd_cons, IH.
  destruct (Js.whitespace_only (String c (Js.trimEnd s))) eqn:Hw'; [|done].
  exfalso. cbn in Hw, Hw'. apply andb_true_iff in Hw' as [Hc Hs'].
  rewrite Hc in Hw. cbn in Hw.
  apply trimEnd_whitespace_only in Hs'. rewrite IH in Hs'.
  apply trimEnd_empty in Hs'. congruence.
Qed.

Lemma trimStart_fixed s c t :
  s = String c t → Js.is_whitespace c = false → Js.trimStart s = s.
Proof. intros -> H. cbn. by rewrite H. Qed.

(** [trim] cuts white space off both ends and nothing else; what is left
    neither starts nor ends with white space, and trimming it again
    changes nothing. *)
Lemma trim_spec s :
  (∃ pre post,
     s = pre +:+ Js.trim s +:+ post
     ∧ Js.whitespace_only pre = true ∧ Js.whitespace_only post = true)
  ∧ (∀ c t, Js.trim s = String c t → Js.is_whitespace c = false)
  ∧ (∀ t c, Js.trim s = t +:+ String c EmptyString → Js.is_whitespace c = false)
  ∧ Js.trim (Js.trim s) = Js.trim s.
Proof.
  unfold Js.trim. split_and!.
  - destruct (trimStart_split s) as (pre & Hs & Hpre).
    destruct (trimEnd_split (Js.trimStart s)) as (post & Ht & Hpost).
    exists pre, post. split_and!; try done. by rewrite <- Ht.
  - intros c t H. destruct (trimEnd_head _ _ _ H) as [t' Ht'].
    by eapply trimStart_head.
  - intros t c. apply trimEnd_last.
  - destruct (Js.trimEnd (Js.trimStart s)) as [|c t] eqn:E; [done|].
    destruct (trimEnd_head _ _ _ E) as [t' Ht'].
    rewrite (trimStart_fixed _ c t eq_refl).
    + by rewrite <- E, trimEnd_idem.
    + by eapply trimStart_head.
Qed.

(** ** [ChatScreen]: one turn, in two phases *)

Lemma send_disabled_false s :
  ChatScreen.send_disabled s = false ↔
  Js.whitespace_only (ChatScreen.inputText s) = false
  ∧ ChatScreen.isLoading s = false.
Proof.
  unfold ChatScreen.send_disabled.
  rewrite orb_false_iff, negb_false_iff.
  split; intros [H1 H2]; split; try done.
  - destruct (Js.whitespace_only _) eqn:E; [|done].
    apply truthy_trim_false in E. congruence.
  - destruct (Js.truthy _) eqn:E; [done|].
    apply truthy_trim_false in E. congruence.
Qed.

Lemma guard_is_send_disabled s :
  negb (Js.truthy (Js.trim (ChatScreen.inputText s))) || ChatScreen.isLoading s
  = ChatScreen.send_disabled s.
Proof. unfold ChatScreen.send_disabled. apply orb_comm. Qed.

(** The handler is its first phase followed, when a request went out, by
    its second phase on the state the first one left. *)
Lemma sendMessage_phases w s :
  ChatScreen.sendMessage w s
  = match ChatScreen.sendMessage_begin w s with
    | (reqs, Some sent, s1) => (reqs, ChatScreen.sendMessage_settle w sent s1)
    | (reqs, None, s1) => (reqs, s1)
    end.
Proof.
  unfold ChatScreen.sendMessage, ChatScreen.sendMessage_begin.
  destruct (negb _ || _); [done|].
  unfold ChatScreen.sendMessage_settle. cbn [ChatScreen.text].
  unfold ApiService.sendMessage at 1. cbn [fst snd].
  unfold ApiService.sendMessage.  cbn [fst snd].
  by destruct (Http.await_fetch _ _ ≫= _).
Qed.

(** X1.  The send icon is disabled exactly in the states in which the
    handler does nothing: whatever the backend would answer, a disabled
    icon means no request and no state change, and an enabled icon means
    the handler issues a request. *)
Theorem send_icon_matches_guard :
  ∀ s : ChatScreen.state,
    (ChatScreen.send_disabled s = true ↔ ∀ w, ChatScreen.sendMessage w s = ([], s))
    ∧ (ChatScreen.send_disabled s = false ↔
       ∀ w, ∃ req, (ChatScreen.sendMessage w s).1 = [req])
    ∧ (ChatScreen.input_disabled s = true → ChatScreen.send_disabled s = true).
Proof.
  intros s.
  set (w0 := {| ChatScreen.fetch := λ _, Http.Rejected; ChatScreen.now_user := 0;
                ChatScreen.date_user := 0; ChatScreen.now_bot := 0;
                ChatScreen.date_bot := 0 |}).
  assert (ChatScreen.send_disabled s = true → ∀ w, ChatScreen.sendMessage w s = ([], s))
    as Hoff.
  { intros H w. unfold ChatScreen.sendMessage. by rewrite guard_is_send_disabled, H. }
  assert (ChatScreen.send_disabled s = false →
          ∀ w, ∃ req, (ChatScreen.sendMessage w s).1 = [req]) as Hon.
  { intros H w. rewrite sendMessage_phases. unfold ChatScreen.sendMessage_begin.
    rewrite guard_is_send_disabled, H. by eexists. }
  split_and!.
  - split; [done|]. intros H.
    destruct (ChatScreen.send_disabled s) eqn:E; [done|].
    destruct (Hon eq_refl w0) as [req Hreq]. by rewrite (H w0) in Hreq.
  - split; [done|]. intros H.
    destruct (ChatScreen.send_disabled s) eqn:E; [|done].
    destruct (H w0) as [req Hreq]. by rewrite (Hoff eq_refl w0) in Hreq.
  - unfold ChatScreen.input_disabled, ChatScreen.send_disabled. by intros ->.
Qed.

Lemma send_icon_matches_guard_witness :
  let s := {| ChatScreen.messages := []; ChatScreen.inputText := "hello";
              ChatScreen.isLoading := true; ChatScreen.conversationId := None;
              ChatScreen.snackbar :=
                {| ChatScreen.visible := false; ChatScreen.message := "" |} |} in
  ChatScreen.send_disabled s = true.
Proof.
  intros s. apply (proj2 (proj2 (send_icon_matches_guard s))). reflexivity.
Defined.

(** The outcome of [apiService.sendMessage] in terms of what [fetch] gave. *)
Lemma sendMessage_outcome fetch sent :
  (ApiService.sendMessage ApiService.apiService fetch sent).2
  = match fetch (ApiService.sendMessage_request ApiService.apiService sent) with
    | Http.Rejected => Http.Throws Http.NetworkError
    | Http.Resolved r =>
        if Http.ok r then
          match Http.json_body r with
          | Some body => Http.Returns body
          | None => Http.Throws Http.SyntaxError
          end
        else Http.Throws (Http.http_error r)
    end.
Proof.
  unfold ApiService.sendMessage, Http.await_fetch. cbn [snd].
  destruct (fetch _) as [|r]; [done|]. cbn.
  destruct (Http.ok r); [|done]. cbn. unfold Http.await_json.
  by destruct (Http.json_body r).
Qed.

(** X2.  Whenever the handler runs, exactly one request goes out and the
    turn ends in one of two ways.  If [fetch] resolved with [ok] and a JSON
    body, the user's message and the reply are appended and the
    conversation ID becomes the one of the reply.  In every other case (the
    network call rejected, a status that is not [ok], a body that is not
    JSON) only the user's message is appended, the conversation ID stays
    and the snackbar opens with the same fixed text.  Either way the input
    is emptied and loading is over. *)
Theorem chat_turn_outcomes :
  ∀ (w : ChatScreen.world) (s : ChatScreen.state),
    ChatScreen.send_disabled s = false →
    let sent := {| ChatMessage.message := Js.trim (ChatScreen.inputText s);
                   ChatMessage.conversation_id := ChatScreen.conversationId s |} in
    let req := ApiService.sendMessage_request ApiService.apiService sent in
    let asked := {| ChatScreen.id := pretty (ChatScreen.now_user w);
                    ChatScreen.text := Js.trim (ChatScreen.inputText s);
                    ChatScreen.isUser := true;
                    ChatScreen.timestamp := ChatScreen.date_user w;
                    ChatScreen.sources := None |} in
    let s' := (ChatScreen.sendMessage w s).2 in
    let succeeded :=
      ∃ r body, ChatScreen.fetch w req = Http.Resolved r
                ∧ Http.ok r = true ∧ Http.json_body r = Some body in
    (ChatScreen.sendMessage w s).1 = [req]
    ∧ ChatScreen.inputText s' = EmptyString
    ∧ ChatScreen.isLoading s' = false
    ∧ (∀ r body,
         ChatScreen.fetch w req = Http.Resolved r → Http.ok r = true →
         Http.json_body r = Some body →
         ChatScreen.messages s'
         = ChatScreen.messages s
           ++ [asked;
               {| ChatScreen.id := pretty (ChatScreen.now_bot w + 1)%Z;
                  ChatScreen.text := ChatResponse.response body;
                  ChatScreen.isUser := false;
                  ChatScreen.timestamp := ChatScreen.date_bot w;
                  ChatScreen.sources := Some (ChatResponse.sources body) |}]
         ∧ ChatScreen.conversationId s' = Some (ChatResponse.conversation_id body)
         ∧ ChatScreen.snackbar s' = ChatScreen.snackbar s)
    ∧ (¬ succeeded →
         ChatScreen.messages s' = ChatScreen.messages s ++ [asked]
         ∧ ChatScreen.conversationId s' = ChatScreen.conversationId s
         ∧ ChatScreen.snackbar s'
           = {| ChatScreen.visible := true;
                ChatScreen.message := ChatScreen.failure_text |})
    ∧ (succeeded ↔
       length (ChatScreen.messages s') = length (ChatScreen.messages s) + 2).
Proof.
  intros w s Hon sent req asked s' succeeded. subst s'.
  rewrite sendMessage_phases. unfold ChatScreen.sendMessage_begin.
  rewrite guard_is_send_disabled, Hon. cbn [ChatScreen.text fst snd].
  fold sent. fold req. fold asked.
  unfold ChatScreen.sendMessage_settle. rewrite sendMessage_outcome. fold req.
  destruct (ChatScreen.fetch w req) as [|r] eqn:Hf.
  { cbn. split_and!; try done. split.
    - by intros (r & body & [=] & _).
    - rewrite length_app. cbn. lia. }
  destruct (Http.ok r) eqn:Hok; [destruct (Http.json_body r) as [body|] eqn:Hb|];
    cbn; (split_and!; [done..| | |]).
  - intros r' body' [= <-] _ Hb'. rewrite Hb in Hb'. injection Hb' as <-.
    by rewrite <- app_assoc.
  - intros Hn. exfalso. apply Hn. by exists r, body.
  - split; [|by exists r, body]. intros _. rewrite !length_app. cbn. lia.
  - intros r' body' [= <-] _ Hb'. congruence.
  - done.
  - split.
    + intros (r' & body' & [= <-] & _ & Hb'). congruence.
    + rewrite length_app. cbn. lia.
  - intros r' body' [= <-] Hok'. congruence.
  - done.
  - split.
    + intros (r' & body' & [= <-] & Hok' & _). congruence.
    + rewrite length_app. cbn. lia.
Qed.

Lemma chat_turn_outcomes_witness :
  let w := {| ChatScreen.fetch := λ _, Http.Rejected; ChatScreen.now_user := 10;
              ChatScreen.date_user := 10; ChatScreen.now_bot := 20;
              ChatScreen.date_bot := 20 |} in
  let s := ChatScreen.onChangeText " hi " (ChatScreen.mount 5) in
  ChatScreen.snackbar (ChatScreen.sendMessage w s).2
  = {| ChatScreen.visible := true; ChatScreen.message := ChatScreen.failure_text |}.
Proof.
  intros w s.
  destruct (chat_turn_outcomes w s eq_refl) as (_ & _ & _ & _ & H & _).
  apply H. by intros (r & body & [=] & _).
Defined.

(** ** [ChatScreen]: the conversation across turns *)

Lemma sendMessage_request_body this sent :
  ∃ fields,
    Http.body (ApiService.sendMessage_request this sent) = Some fields
    ∧ Http.property "message" fields = Some (Http.JStr (ChatMessage.message sent))
    ∧ Http.property "conversation_id" fields
      = Http.JStr <$> ChatMessage.conversation_id sent.
Proof.
  destruct sent as [m [c|]]; cbn; eexists; split_and!; reflexivity.
Qed.

Lemma chat_turn_request w s :
  ChatScreen.send_disabled s = false →
  (ChatScreen.sendMessage w s).1
  = [ApiService.sendMessage_request ApiService.apiService
       {| ChatMessage.message := Js.trim (ChatScreen.inputText s);
          ChatMessage.conversation_id := ChatScreen.conversationId s |}].
Proof.
  intros Hon. rewrite sendMessage_phases. unfold ChatScreen.sendMessage_begin.
  by rewrite guard_is_send_disabled, Hon.
Qed.

Lemma chat_turn_state w s :
  ChatScreen.send_disabled s = false →
  let sent := {| ChatMessage.message := Js.trim (ChatScreen.inputText s);
                 ChatMessage.conversation_id := ChatScreen.conversationId s |} in
  ChatScreen.isLoading (ChatScreen.sendMessage w s).2 = false
  ∧ ChatScreen.conversationId (ChatScreen.sendMessage w s).2
    = match (ApiService.sendMessage ApiService.apiService (ChatScreen.fetch w) sent).2 with
      | Http.Returns reply => Some (ChatResponse.conversation_id reply)
      | Http.Throws _ => ChatScreen.conversationId s
      end.
Proof.
  intros Hon sent. rewrite sendMessage_phases. unfold ChatScreen.sendMessage_begin.
  rewrite guard_is_send_disabled, Hon. cbn [ChatScreen.text snd]. fold sent.
  unfold ChatScreen.sendMessage_settle.
  by destruct (ApiService.sendMessage _ _ sent).2.
Qed.

(** X3.  The conversation is threaded from one turn to the next.  After a
    turn, once the user has typed a new non-blank text, the next request
    carries the trimmed text and, as [conversation_id], the ID the backend
    returned if the turn succeeded, and otherwise the ID the failed request
    itself carried, the property being absent when there was none. *)
Theorem conversation_id_threaded :
  ∀ (w w' : ChatScreen.world) (s : ChatScreen.state) (typed : string),
    ChatScreen.send_disabled s = false →
    Js.whitespace_only typed = false →
    let sent := {| ChatMessage.message := Js.trim (ChatScreen.inputText s);
                   ChatMessage.conversation_id := ChatScreen.conversationId s |} in
    let s1 := ChatScreen.onChangeText typed (ChatScreen.sendMessage w s).2 in
    ∃ req fields,
      (ChatScreen.sendMessage w' s1).1 = [req]
      ∧ Http.url req = ApiService.API_BASE_URL +:+ "/chat"
      ∧ Http.body req = Some fields
      ∧ Http.property "message" fields = Some (Http.JStr (Js.trim typed))
      ∧ Http.property "conversation_id" fields
        = match (ApiService.sendMessage ApiService.apiService
                   (ChatScreen.fetch w) sent).2 with
          | Http.Returns reply => Some (Http.JStr (ChatResponse.conversation_id reply))
          | Http.Throws _ => Http.JStr <$> ChatScreen.conversationId s
          end.
Proof.
  intros w w' s typed Hon Htyped sent s1.
  destruct (chat_turn_state w s Hon) as [Hload Hcid]. fold sent in Hcid.
  assert (ChatScreen.send_disabled s1 = false) as Hon1.
  { apply send_disabled_false. by split. }
  rewrite (chat_turn_request w' s1 Hon1).
  destruct (sendMessage_request_body ApiService.apiService
              {| ChatMessage.message := Js.trim (ChatScreen.inputText s1);
                 ChatMessage.conversation_id := ChatScreen.conversationId s1 |})
    as (fields & Hb & Hm & Hc).
  eexists _, fields. split_and!; try done.
  cbn [ChatMessage.conversation_id] in Hc. rewrite Hc.
  subst s1. cbn [ChatScreen.onChangeText ChatScreen.conversationId].
  rewrite Hcid. by destruct (ApiService.sendMessage _ _ sent).2.
Qed.

Lemma conversation_id_threaded_witness :
  let reply := {| ChatResponse.response := "answer";
                  ChatResponse.conversation_id := "c7";
                  ChatResponse.sources := [] |} in
  let r := {| Http.ok := true; Http.status := 200; Http.json_body := Some reply |} in
  let w := {| ChatScreen.fetch := λ _, Http.Resolved r; ChatScreen.now_user := 10;
              ChatScreen.date_user := 10; ChatScreen.now_bot := 20;
              ChatScreen.date_bot := 20 |} in
  let s := ChatScreen.onChangeText "first" (ChatScreen.mount 5) in
  let s1 := ChatScreen.onChangeText "second" (ChatScreen.sendMessage w s).2 in
  ∃ req fields,
    (ChatScreen.sendMessage w s1).1 = [req]
    ∧ Http.body req = Some fields
    ∧ Http.property "conversation_id" fields = Some (Http.JStr "c7").
Proof.
  intros reply r w s s1.
  destruct (conversation_id_threaded w w s "second" eq_refl eq_refl)
    as (req & fields & H1 & _ & H3 & _ & H5).
  exists req, fields. split_and!; [exact H1|exact H3|exact H5].
Defined.

(** ** [ChatScreen]: while a request is in flight *)

(** X4.  Once the handler has issued a request and until that request
    settles, the component is loading and a further call of the handler,
    whatever has been typed meanwhile, issues no second request and changes
    nothing. *)
Theorem no_second_request_in_flight :
  ∀ (w : ChatScreen.world) (s s1 : ChatScreen.state) reqs sent,
    ChatScreen.sendMessage_begin w s = (reqs, Some sent, s1) →
    ChatScreen.isLoading s1 = true
    ∧ ChatScreen.send_disabled s1 = true
    ∧ ChatScreen.input_disabled s1 = true
    ∧ ∀ w' typed,
        ChatScreen.sendMessage w' (ChatScreen.onChangeText typed s1)
        = ([], ChatScreen.onChangeText typed s1).
Proof.
  intros w s s1 reqs sent. unfold ChatScreen.sendMessage_begin.
  destruct (negb _ || _); [done|]. intros [= <- <- <-].
  split_and!; try done.
  intros w' typed. unfold ChatScreen.sendMessage. cbn. by rewrite orb_true_r.
Qed.

Lemma no_second_request_in_flight_witness :
  let w := {| ChatScreen.fetch := λ _, Http.Rejected; ChatScreen.now_user := 10;
              ChatScreen.date_user := 10; ChatScreen.now_bot := 20;
              ChatScreen.date_bot := 20 |} in
  let s := ChatScreen.onChangeText "first" (ChatScreen.mount 5) in
  ChatScreen.send_disabled (ChatScreen.sendMessage_begin w s).2 = true.
Proof.
  intros w s.
  destruct (ChatScreen.sendMessage_begin w s) as [[reqs [sent|]] s1] eqn:E;
    [|discriminate E].
  exact (proj1 (proj2 (no_second_request_in_flight w s s1 reqs sent E))).
Defined.

(** X5.  Clearing the chat while a request is in flight does not detach
    the conversation.  [s1] is the state in which [Clear] is pressed and
    [sent] the message in flight.  When the request then succeeds, the
    reply is appended to the cleared list, without the question it answers,
    and the conversation ID is set again, to the one of the reply; when it
    fails, the list and the absent conversation ID stay as the clearing
    left them and the snackbar opens. *)
Theorem clear_in_flight_is_undone :
  ∀ (w : ChatScreen.world) (s1 : ChatScreen.state) (sent : ChatMessage.t) (date : Z),
    let cleared := {| ChatScreen.id := "1"; ChatScreen.text := ChatScreen.cleared_text;
                      ChatScreen.isUser := false; ChatScreen.timestamp := date;
                      ChatScreen.sources := None |} in
    let s2 := ChatScreen.sendMessage_settle w sent
                (ChatScreen.clearChat ChatScreen.Clear date s1) in
    ChatScreen.conversationId (ChatScreen.clearChat ChatScreen.Clear date s1) = None
    ∧ ChatScreen.isLoading s2 = false
    ∧ match (ApiService.sendMessage ApiService.apiService (ChatScreen.fetch w) sent).2 with
      | Http.Returns reply =>
          ChatScreen.conversationId s2 = Some (ChatResponse.conversation_id reply)
          ∧ ChatScreen.messages s2
            = [cleared;
               {| ChatScreen.id := pretty (ChatScreen.now_bot w + 1)%Z;
                  ChatScreen.text := ChatResponse.response reply;
                  ChatScreen.isUser := false;
                  ChatScreen.timestamp := ChatScreen.date_bot w;
                  ChatScreen.sources := Some (ChatResponse.sources reply) |}]
      | Http.Throws _ =>
          ChatScreen.conversationId s2 = None
          ∧ ChatScreen.messages s2 = [cleared]
          ∧ ChatScreen.snackbar s2
            = {| ChatScreen.visible := true;
                 ChatScreen.message := ChatScreen.failure_text |}
      end.
Proof.
  intros w s1 sent date cleared s2. subst s2.
  unfold ChatScreen.sendMessage_settle.
  destruct (ApiService.sendMessage _ _ sent).2; cbn; by split_and!.
Qed.

(** X6.  A chat that was just mounted or just cleared has no conversation:
    the next request has no [conversation_id] property, whatever
    conversation was open before the clearing.  Pressing [Cancel] in the
    alert changes nothing. *)
Theorem cleared_chat_starts_afresh :
  ∀ (w : ChatScreen.world) (s : ChatScreen.state) (date : Z) (typed : string),
    Js.whitespace_only typed = false →
    (ChatScreen.isLoading s = false →
     ∃ req fields,
       (ChatScreen.sendMessage w
          (ChatScreen.onChangeText typed (ChatScreen.clearChat ChatScreen.Clear date s))).1
       = [req]
       ∧ Http.body req = Some fields
       ∧ Http.property "message" fields = Some (Http.JStr (Js.trim typed))
       ∧ Http.property "conversation_id" fields = None)
    ∧ (∃ req fields,
       (ChatScreen.sendMessage w
          (ChatScreen.onChangeText typed (ChatScreen.mount date))).1 = [req]
       ∧ Http.body req = Some fields
       ∧ Http.property "message" fields = Some (Http.JStr (Js.trim typed))
       ∧ Http.property "conversation_id" fields = None)
    ∧ ChatScreen.clearChat ChatScreen.Cancel date s = s
    ∧ length (ChatScreen.messages (ChatScreen.clearChat ChatScreen.Clear date s)) = 1
    ∧ ChatScreen.shown_sources (ChatScreen.clearChat ChatScreen.Clear date s) = [].
Proof.
  intros w s date typed Htyped. split_and!; try done.
  - intros Hload.
    set (s1 := ChatScreen.onChangeText typed (ChatScreen.clearChat ChatScreen.Clear date s)).
    assert (ChatScreen.send_disabled s1 = false) as Hon
      by (apply send_disabled_false; by split).
    rewrite (chat_turn_request w s1 Hon).
    destruct (sendMessage_request_body ApiService.apiService
                {| ChatMessage.message := Js.trim (ChatScreen.inputText s1);
                   ChatMessage.conversation_id := ChatScreen.conversationId s1 |})
      as (fields & Hb & Hm & Hc).
    by eexists _, fields.
  - set (s1 := ChatScreen.onChangeText typed (ChatScreen.mount date)).
    assert (ChatScreen.send_disabled s1 = false) as Hon
      by (apply send_disabled_false; by split).
    rewrite (chat_turn_request w s1 Hon).
    destruct (sendMessage_request_body ApiService.apiService
                {| ChatMessage.message := Js.trim (ChatScreen.inputText s1);
                   ChatMessage.conversation_id := ChatScreen.conversationId s1 |})
      as (fields & Hb & Hm & Hc).
    by eexists _, fields.
Qed.

Lemma cleared_chat_starts_afresh_witness :
  let w := {| ChatScreen.fetch := λ _, Http.Rejected; ChatScreen.now_user := 10;
              ChatScreen.date_user := 10; ChatScreen.now_bot := 20;
              ChatScreen.date_bot := 20 |} in
  let s := {| ChatScreen.messages := []; ChatScreen.inputText := "";
              ChatScreen.isLoading := false; ChatScreen.conversationId := Some "c7";
              ChatScreen.snackbar :=
                {| ChatScreen.visible := false; ChatScreen.message := "" |} |} in
  ∃ req fields,
    (ChatScreen.sendMessage w
       (ChatScreen.onChangeText "again"
          (ChatScreen.clearChat ChatScreen.Clear 15 s))).1 = [req]
    ∧ Http.body req = Some fields
    ∧ Http.property "conversation_id" fields = None.
Proof.
  intros w s.
  destruct (proj1 (cleared_chat_starts_afresh w s 15 "again" eq_refl) eq_refl)
    as (req & fields & H1 & H2 & _ & H4).
  exists req, fields. split_and!; [exact H1|exact H2|exact H4].
Defined.

(** ** What is sent is what was typed, trimmed *)

Lemma web_guard_open s :
  Js.whitespace_only (WebApp.inputMessage s) = false → WebApp.loading s = false →
  negb (Js.truthy (Js.trim (WebApp.inputMessage s))) || WebApp.loading s = false.
Proof.
  intros Hin ->. rewrite orb_false_r, negb_false_iff.
  destruct (Js.truthy _) eqn:E; [done|]. apply truthy_trim_false in E. congruence.
Qed.

Lemma web_phases w s :
  WebApp.sendMessage w s
  = match WebApp.sendMessage_begin w s with
    | (Some req, s1) =>
        let '(reqs, s2) := WebApp.sendMessage_settle w req s1 in (req :: reqs, s2)
    | (None, s1) => ([], s1)
    end.
Proof.
  unfold WebApp.sendMessage, WebApp.sendMessage_begin.
  destruct (negb _ || _); [done|].
  unfold WebApp.sendMessage_settle.
  destruct (WebApp.post_chat w _) as [data|carried]; cbn [WebApp.messages].
  - destruct (WebApp.data_conversation_id data) as [cid|]; cbn [WebApp.js_or].
    + destruct (Js.truthy cid); cbn.
      * by rewrite <- app_assoc.
      * by rewrite <- app_assoc.
    + cbn. by rewrite <- app_assoc.
  - cbn. by rewrite <- app_assoc.
Qed.

Lemma web_turn_request w s :
  Js.whitespace_only (WebApp.inputMessage s) = false → WebApp.loading s = false →
  ∃ rest,
    (WebApp.sendMessage w s).1
    = WebApp.chat_request (Js.trim (WebApp.inputMessage s))
        (WebApp.currentConversation s) :: rest.
Proof.
  intros Hin Hload. rewrite web_phases. unfold WebApp.sendMessage_begin.
  rewrite (web_guard_open s Hin Hload).
  destruct (WebApp.sendMessage_settle _ _ _) as [reqs s2]. by exists reqs.
Qed.

Lemma chat_request_body text current :
  ∃ fields,
    Http.body (WebApp.chat_request text current) = Some fields
    ∧ Http.property "message" fields = Some (Http.JStr text)
    ∧ Http.property "conversation_id" fields
      = Some (from_option Http.JStr Http.JNull current).
Proof. eexists. split_and!; reflexivity. Qed.

(** X7.  In both clients the text sent to the backend is the typed text
    with the white space cut off both ends and nothing else changed: it is
    not empty and neither starts nor ends with white space, and what was
    cut off is white space only.  The user's bubble shows that same
    text. *)
Theorem sent_text_is_trimmed_input :
  (∀ (w : ChatScreen.world) (s : ChatScreen.state),
     ChatScreen.send_disabled s = false →
     ∃ req fields text asked,
       (ChatScreen.sendMessage w s).1 = [req]
       ∧ Http.body req = Some fields
       ∧ Http.property "message" fields = Some (Http.JStr text)
       ∧ ChatScreen.messages (ChatScreen.sendMessage w s).2 !! length (ChatScreen.messages s)
         = Some asked
       ∧ ChatScreen.text asked = text ∧ ChatScreen.isUser asked = true
       ∧ text ≠ EmptyString
       ∧ (∃ pre post, ChatScreen.inputText s = pre +:+ text +:+ post
                      ∧ Js.whitespace_only pre = true
                      ∧ Js.whitespace_only post = true)
       ∧ (∀ c u, text = String c u → Js.is_whitespace c = false)
       ∧ (∀ u c, text = u +:+ String c EmptyString → Js.is_whitespace c = false))
  ∧ (∀ (w : WebApp.world) (s : WebApp.state),
     Js.whitespace_only (WebApp.inputMessage s) = false →
     WebApp.loading s = false →
     ∃ req rest fields text asked,
       (WebApp.sendMessage w s).1 = req :: rest
       ∧ Http.body req = Some fields
       ∧ Http.property "message" fields = Some (Http.JStr text)
       ∧ WebApp.messages (WebApp.sendMessage w s).2 !! length (WebApp.messages s)
         = Some asked
       ∧ WebApp.content asked = text ∧ WebApp.type asked = WebApp.user
       ∧ text ≠ EmptyString
       ∧ (∃ pre post, WebApp.inputMessage s = pre +:+ text +:+ post
                      ∧ Js.whitespace_only pre = true
                      ∧ Js.whitespace_only post = true)
       ∧ (∀ c u, text = String c u → Js.is_whitespace c = false)
       ∧ (∀ u c, text = u +:+ String c EmptyString → Js.is_whitespace c = false)).
Proof.
  split.
  - intros w s Hon.
    destruct (trim_spec (ChatScreen.inputText s)) as (Hcut & Hhead & Hlast & _).
    destruct (sendMessage_request_body ApiService.apiService
                {| ChatMessage.message := Js.trim (ChatScreen.inputText s);
                   ChatMessage.conversation_id := ChatScreen.conversationId s |})
      as (fields & Hb & Hm & _).
    eexists _, fields, (Js.trim (ChatScreen.inputText s)),
      {| ChatScreen.id := pretty (ChatScreen.now_user w);
         ChatScreen.text := Js.trim (ChatScreen.inputText s);
         ChatScreen.isUser := true;
         ChatScreen.timestamp := ChatScreen.date_user w;
         ChatScreen.sources := None |}.
    split_and!; [by apply chat_turn_request|done|done| |reflexivity|reflexivity| |done..].
    + rewrite sendMessage_phases. unfold ChatScreen.sendMessage_begin.
      rewrite guard_is_send_disabled, Hon. cbn [snd].
      unfold ChatScreen.sendMessage_settle.
      destruct (ApiService.sendMessage _ _ _).2; cbn [ChatScreen.messages].
      * rewrite lookup_app_l by (rewrite length_app; cbn; lia).
        by rewrite lookup_app_r, Nat.sub_diag.
      * by rewrite lookup_app_r, Nat.sub_diag.
    + apply send_disabled_false in Hon as [Hin _]. intros H.
      apply trim_empty_iff in H. congruence.
  - intros w s Hin Hload.
    destruct (trim_spec (WebApp.inputMessage s)) as (Hcut & Hhead & Hlast & _).
    destruct (web_turn_request w s Hin Hload) as [rest Hreq].
    destruct (chat_request_body (Js.trim (WebApp.inputMessage s))
                (WebApp.currentConversation s)) as (fields & Hb & Hm & _).
    eexists _, rest, fields, (Js.trim (WebApp.inputMessage s)),
      {| WebApp.type := WebApp.user;
         WebApp.content := Js.trim (WebApp.inputMessage s);
         WebApp.sources := None;
         WebApp.timestamp := WebApp.date_user w |}.
    split_and!; [exact Hreq|done|done| |reflexivity|reflexivity| |done..].
    + rewrite web_phases. unfold WebApp.sendMessage_begin.
      rewrite (web_guard_open s Hin Hload).
      destruct (WebApp.sendMessage_settle _ _ _) as [reqs s2] eqn:E. cbn [snd].
      unfold WebApp.sendMessage_settle in E.
      destruct (WebApp.post_chat w _) as [data|carried].
      * destruct (WebApp.js_or _ _); cbn in E; injection E as _ <-;
          cbn [WebApp.messages];
          (rewrite lookup_app_l by (rewrite length_app; cbn; lia));
          by rewrite lookup_app_r, Nat.sub_diag.
      * injection E as _ <-. cbn [WebApp.messages].
        rewrite lookup_app_l by (rewrite length_app; cbn; lia).
        by rewrite lookup_app_r, Nat.sub_diag.
    + intros H. apply trim_empty_iff in H. congruence.
Qed.

Lemma sent_text_is_trimmed_input_witness :
  let w := {| ChatScreen.fetch := λ _, Http.Rejected; ChatScreen.now_user := 10;
              ChatScreen.date_user := 10; ChatScreen.now_bot := 20;
              ChatScreen.date_bot := 20 |} in
  let s := ChatScreen.onChangeText "  two words " (ChatScreen.mount 5) in
  ∃ req fields text,
    (ChatScreen.sendMessage w s).1 = [req]
    ∧ Http.body req = Some fields
    ∧ Http.property "message" fields = Some (Http.JStr text)
    ∧ text ≠ EmptyString.
Proof.
  intros w s.
  destruct (proj1 sent_text_is_trimmed_input w s eq_refl)
    as (req & fields & text & asked & H1 & H2 & H3 & _ & _ & _ & H7 & _).
  exists req, fields, text. split_and!; [exact H1|exact H2|exact H3|exact H7].
Defined.

(** ** [ChatScreen]: the keys of the message list *)

Lemma keys_before_mono t t' s :
  (t <= t')%Z → ChatScreen.keys_before t s → ChatScreen.keys_before t' s.
Proof.
  intros Ht H m Hm. destruct (H m Hm) as (n & Hn & Hlt). exists n. split; [done|lia].
Qed.

Lemma key_fresh t n s :
  ChatScreen.keys_before t s → (t <= n)%Z →
  pretty n ∉ ChatScreen.keyExtractor <$> ChatScreen.messages s.
Proof.
  intros H Hn [m [Hid Hm]]%list_elem_of_fmap.
  destruct (H m Hm) as (k & Hk & Hlt). unfold ChatScreen.keyExtractor in Hid.
  rewrite Hk in Hid. apply (inj pretty) in Hid. lia.
Qed.

(** X9.  The keys of the message list stay distinct.  The mounted and the
    cleared list hold the single key "1".  If the keys are distinct
    numerals of integers below the clock reading taken for the user's
    message, and the clock has not gone back when the reply arrives, then
    after the turn the keys are still distinct, and they are numerals below
    the reply's reading plus two. *)
Theorem message_keys_stay_distinct :
  (∀ date, NoDup (ChatScreen.keyExtractor <$> ChatScreen.messages (ChatScreen.mount date))
           ∧ ChatScreen.keys_before 2 (ChatScreen.mount date))
  ∧ (∀ date s,
       NoDup (ChatScreen.keyExtractor
                <$> ChatScreen.messages (ChatScreen.clearChat ChatScreen.Clear date s))
       ∧ ChatScreen.keys_before 2 (ChatScreen.clearChat ChatScreen.Clear date s))
  ∧ (∀ (w : ChatScreen.world) (s : ChatScreen.state),
       NoDup (ChatScreen.keyExtractor <$> ChatScreen.messages s) →
       ChatScreen.keys_before (ChatScreen.now_user w) s →
       (ChatScreen.now_user w <= ChatScreen.now_bot w)%Z →
       NoDup (ChatScreen.keyExtractor
                <$> ChatScreen.messages (ChatScreen.sendMessage w s).2)
       ∧ ChatScreen.keys_before (ChatScreen.now_bot w + 2)
           (ChatScreen.sendMessage w s).2).
Proof.
  split_and!.
  - intros date. split.
    + cbn. apply NoDup_singleton.
    + intros m ->%list_elem_of_singleton. by exists 1%Z.
  - intros date s. split.
    + cbn. apply NoDup_singleton.
    + intros m ->%list_elem_of_singleton. by exists 1%Z.
  - intros w s Hnd Hkeys Hclock.
    rewrite sendMessage_phases. unfold ChatScreen.sendMessage_begin.
    destruct (negb _ || _).
    { cbn [snd]. split; [done|]. eapply keys_before_mono; [|done]. lia. }
    cbn [snd ChatScreen.text]. unfold ChatScreen.sendMessage_settle.
    pose proof (key_fresh _ (ChatScreen.now_user w) s Hkeys ltac:(lia)) as Hu.
    pose proof (key_fresh _ (ChatScreen.now_bot w + 1)%Z s Hkeys ltac:(lia)) as Hb.
    destruct (ApiService.sendMessage _ _ _).2 as [reply|e]; cbn [ChatScreen.messages].
    + split.
      * rewrite <- app_assoc, fmap_app. apply NoDup_app. split_and!; [done| |].
        -- intros k Hk. cbn. intros [->|[->|[]%not_elem_of_nil]%elem_of_cons]%elem_of_cons;
             done.
        -- cbn. apply NoDup_cons. split; [|apply NoDup_singleton].
           intros Heq%list_elem_of_singleton. unfold ChatScreen.keyExtractor in Heq.
           cbn in Heq. apply (inj pretty) in Heq. lia.
      * intros m [[Hm|Hm]%elem_of_app|Hm]%elem_of_app.
        -- destruct (Hkeys m Hm) as (n & Hn & Hlt). exists n. split; [done|lia].
        -- apply list_elem_of_singleton in Hm as ->. eexists. split; [reflexivity|lia].
        -- apply list_elem_of_singleton in Hm as ->. eexists. split; [reflexivity|lia].
    + split.
      * rewrite fmap_app. apply NoDup_app. split_and!; [done| |apply NoDup_singleton].
        intros k Hk. cbn. by intros ->%list_elem_of_singleton.
      * intros m [Hm|Hm]%elem_of_app.
        -- destruct (Hkeys m Hm) as (n & Hn & Hlt). exists n. split; [done|lia].
        -- apply list_elem_of_singleton in Hm as ->. eexists. split; [reflexivity|lia].
Qed.

Lemma message_keys_stay_distinct_witness :
  let reply := {| ChatResponse.response := "answer";
                  ChatResponse.conversation_id := "c7";
                  ChatResponse.sources := [] |} in
  let r := {| Http.ok := true; Http.status := 200; Http.json_body := Some reply |} in
  let w := {| ChatScreen.fetch := λ _, Http.Resolved r; ChatScreen.now_user := 10;
              ChatScreen.date_user := 10; ChatScreen.now_bot := 20;
              ChatScreen.date_bot := 20 |} in
  let s := ChatScreen.onChangeText "first" (ChatScreen.mount 5) in
  NoDup (ChatScreen.keyExtractor <$> ChatScreen.messages (ChatScreen.sendMessage w s).2).
Proof.
  intros reply r w s.
  apply (proj2 (proj2 message_keys_stay_distinct) w s).
  - cbn. apply NoDup_singleton.
  - intros m ->%list_elem_of_singleton. exists 1%Z. split; [reflexivity|cbn; lia].
  - cbn. lia.
Defined.

(** ** [App]: the Send button, the Enter key and the connection check *)

Lemma web_send_disabled_false s :
  WebApp.send_disabled s = false ↔
  WebApp.connected s = true ∧ WebApp.loading s = false
  ∧ Js.whitespace_only (WebApp.inputMessage s) = false.
Proof.
  unfold WebApp.send_disabled.
  rewrite !orb_false_iff, !negb_false_iff. split.
  - intros [[Hc Hl] Ht]. split_and!; try done.
    destruct (Js.whitespace_only _) eqn:E; [|done].
    apply truthy_trim_false in E. congruence.
  - intros (Hc & Hl & Ht). split_and!; try done.
    destruct (Js.truthy _) eqn:E; [done|].
    apply truthy_trim_false in E. congruence.
Qed.

Lemma web_guard_closed w s :
  Js.whitespace_only (WebApp.inputMessage s) = true ∨ WebApp.loading s = true →
  WebApp.sendMessage w s = ([], s).
Proof.
  intros H. unfold WebApp.sendMessage. destruct H as [H|H].
  - apply truthy_trim_false in H. by rewrite H.
  - rewrite H. by rewrite orb_true_r.
Qed.

(** X10.  The Send button and the Enter key.  An enabled button means the
    handler sends: it posts to [/chat].  The handler itself does not look
    at the connection flag: it sends exactly when the input is not blank
    and no request is in flight, and a connection check commutes with it.
    The flag only disables the input and the button, which it does after
    every failed check.  Enter without Shift calls the handler and
    suppresses the key's default action, also when the handler then does
    nothing; any other key does neither. *)
Theorem web_send_controls :
  ∀ (w : WebApp.world) (s : WebApp.state),
    (WebApp.send_disabled s = false →
     ∃ req rest, (WebApp.sendMessage w s).1 = req :: rest
                 ∧ Http.url req = WebApp.API_BASE_URL +:+ "/chat"
                 ∧ Http.method req = Http.POST)
    ∧ ((WebApp.sendMessage w s).1 ≠ [] ↔
       Js.whitespace_only (WebApp.inputMessage s) = false ∧ WebApp.loading s = false)
    ∧ (WebApp.input_disabled s = true → WebApp.send_disabled s = true)
    ∧ (∀ (T : Type) (get_health : Http.request → WebApp.axios T),
         (WebApp.sendMessage w (WebApp.checkConnection get_health s).2).1
         = (WebApp.sendMessage w s).1
         ∧ (WebApp.sendMessage w (WebApp.checkConnection get_health s).2).2
           = (WebApp.checkConnection get_health (WebApp.sendMessage w s).2).2)
    ∧ (∀ (T : Type) (get_health : Http.request → WebApp.axios T) carried,
         get_health WebApp.health_request = WebApp.Failed carried →
         let s' := (WebApp.checkConnection get_health s).2 in
         WebApp.send_disabled s' = true ∧ WebApp.input_disabled s' = true
         ∧ WebApp.placeholder s' = "Backend not connected")
    ∧ (∀ e, WebApp.key e = "Enter" → WebApp.shiftKey e = false →
            WebApp.handleKeyPress w e s = (true, WebApp.sendMessage w s))
    ∧ (∀ e, WebApp.key e ≠ "Enter" ∨ WebApp.shiftKey e = true →
            WebApp.handleKeyPress w e s = (false, ([], s))).
Proof.
  intros w s. split_and!.
  - intros (_ & Hl & Ht)%web_send_disabled_false.
    destruct (web_turn_request w s Ht Hl) as [rest Hreq]. by eexists _, rest.
  - split.
    + intros H.
      destruct (Js.whitespace_only (WebApp.inputMessage s)) eqn:Ht;
        [by rewrite web_guard_closed in H by auto|].
      destruct (WebApp.loading s) eqn:Hl;
        [by rewrite web_guard_closed in H by auto|done].
    + intros [Ht Hl]. destruct (web_turn_request w s Ht Hl) as [rest ->]. done.
  - unfold WebApp.input_disabled, WebApp.send_disabled. by intros ->.
  - intros T get_health. unfold WebApp.sendMessage, WebApp.checkConnection.
    cbn [snd WebApp.inputMessage WebApp.loading WebApp.messages
         WebApp.currentConversation WebApp.conversations WebApp.connected].
    destruct (negb _ || _); [done|].
    destruct (WebApp.post_chat w _) as [data|carried]; [|done].
    destruct (WebApp.data_conversation_id data) as [cid|]; [|done].
    destruct (Js.truthy cid); [|done].
    by destruct (WebApp.loadConversations w _).
  - intros T get_health carried Hf s'. subst s'.
    unfold WebApp.send_disabled, WebApp.input_disabled, WebApp.placeholder,
      WebApp.checkConnection. cbn. by rewrite Hf.
  - intros e He Hs. unfold WebApp.handleKeyPress. by rewrite He, Hs.
  - intros e H. unfold WebApp.handleKeyPress.
    destruct H as [H|H].
    + apply String.eqb_neq in H. by rewrite H.
    + rewrite H. by rewrite andb_false_r.
Qed.

Lemma web_send_controls_witness :
  let w := {| WebApp.post_chat := λ _, WebApp.Failed None;
              WebApp.get_conversations := λ _, WebApp.Failed None;
              WebApp.date_user := "t0"; WebApp.date_bot := "t1" |} in
  let s := WebApp.onChange "question" WebApp.initial in
  WebApp.handleKeyPress w {| WebApp.key := "Enter"; WebApp.shiftKey := true |} s
  = (false, ([], s)).
Proof.
  intros w s.
  apply (proj2 (proj2 (proj2 (proj2 (proj2 (proj2 (web_send_controls w s))))))).
  right. reflexivity.
Defined.

(** ** [App]: the conversation across turns *)

Lemma web_turn w s :
  Js.whitespace_only (WebApp.inputMessage s) = false → WebApp.loading s = false →
  ∃ s1,
    WebApp.sendMessage_begin w s
    = (Some (WebApp.chat_request (Js.trim (WebApp.inputMessage s))
               (WebApp.currentConversation s)), s1)
    ∧ WebApp.currentConversation s1 = WebApp.currentConversation s
    ∧ WebApp.conversations s1 = WebApp.conversations s
    ∧ WebApp.connected s1 = WebApp.connected s
    ∧ WebApp.loading s1 = true
    ∧ WebApp.messages s1
      = WebApp.messages s
        ++ [{| WebApp.type := WebApp.user;
               WebApp.content := Js.trim (WebApp.inputMessage s);
               WebApp.sources := None;
               WebApp.timestamp := WebApp.date_user w |}]
    ∧ WebApp.sendMessage w s
      = (WebApp.chat_request (Js.trim (WebApp.inputMessage s))
           (WebApp.currentConversation s)
         :: (WebApp.sendMessage_settle w
               (WebApp.chat_request (Js.trim (WebApp.inputMessage s))
                  (WebApp.currentConversation s)) s1).1,
         (WebApp.sendMessage_settle w
            (WebApp.chat_request (Js.trim (WebApp.inputMessage s))
               (WebApp.currentConversation s)) s1).2).
Proof.
  intros Ht Hl. rewrite web_phases. unfold WebApp.sendMessage_begin.
  rewrite (web_guard_open s Ht Hl). eexists. split_and!; try reflexivity.
  by destruct (WebApp.sendMessage_settle _ _ _).
Qed.

(** The conversation the page is in once a request has settled on the
    state [s1]. *)
Lemma web_settle_conversation w req s1 :
  WebApp.currentConversation (WebApp.sendMessage_settle w req s1).2
  = match WebApp.post_chat w req with
    | WebApp.Fulfilled data =>
        match WebApp.js_or (WebApp.data_conversation_id data) None with
        | Some cid => Some cid
        | None => WebApp.currentConversation s1
        end
    | WebApp.Failed _ => WebApp.currentConversation s1
    end
  ∧ WebApp.loading (WebApp.sendMessage_settle w req s1).2 = false.
Proof.
  unfold WebApp.sendMessage_settle.
  destruct (WebApp.post_chat w req) as [data|carried]; [|done].
  destruct (WebApp.js_or _ _); [|done].
  by destruct (WebApp.loadConversations w _).
Qed.

(** X11.  The web client threads the conversation too.  After a turn and
    a new non-blank input, the next request carries as [conversation_id]
    the ID the backend returned when the turn succeeded with a non-empty
    ID, and otherwise what the previous request carried: the ID of the
    conversation that was open, or [null].  After "New Chat" the next
    request carries [null]. *)
Theorem web_conversation_threaded :
  ∀ (w w' : WebApp.world) (s : WebApp.state) (typed : string),
    WebApp.loading s = false →
    Js.whitespace_only typed = false →
    (Js.whitespace_only (WebApp.inputMessage s) = false →
     let before := from_option Http.JStr Http.JNull (WebApp.currentConversation s) in
     let req0 := WebApp.chat_request (Js.trim (WebApp.inputMessage s))
                   (WebApp.currentConversation s) in
     ∃ req rest fields,
       (WebApp.sendMessage w' (WebApp.onChange typed (WebApp.sendMessage w s).2)).1
       = req :: rest
       ∧ Http.body req = Some fields
       ∧ Http.property "message" fields = Some (Http.JStr (Js.trim typed))
       ∧ Http.property "conversation_id" fields
         = Some match WebApp.post_chat w req0 with
                | WebApp.Fulfilled data =>
                    match WebApp.data_conversation_id data with
                    | Some cid => if Js.truthy cid then Http.JStr cid else before
                    | None => before
                    end
                | WebApp.Failed _ => before
                end)
    ∧ (∃ req rest fields,
       (WebApp.sendMessage w' (WebApp.onChange typed (WebApp.startNewConversation s))).1
       = req :: rest
       ∧ Http.body req = Some fields
       ∧ Http.property "message" fields = Some (Http.JStr (Js.trim typed))
       ∧ Http.property "conversation_id" fields = Some Http.JNull).
Proof.
  intros w w' s typed Hl Htyped. split.
  - intros Ht before req0.
    destruct (web_turn w s Ht Hl) as (s1 & _ & Hcur & _ & _ & _ & _ & Hrun).
    destruct (web_settle_conversation w req0 s1) as [Hconv Hload].
    fold req0 in Hrun.
    set (s2 := WebApp.onChange typed (WebApp.sendMessage w s).2).
    assert (WebApp.loading s2 = false) as Hl2.
    { subst s2. rewrite Hrun. exact Hload. }
    destruct (web_turn_request w' s2 Htyped Hl2) as [rest Hreq].
    destruct (chat_request_body (Js.trim typed) (WebApp.currentConversation s2))
      as (fields & Hb & Hm & Hc).
    eexists _, rest, fields. split_and!; [exact Hreq|done..|].
    rewrite Hc. f_equal. subst s2.
    cbn [WebApp.onChange WebApp.currentConversation].
    rewrite Hrun. cbn [snd]. rewrite Hconv, Hcur.
    destruct (WebApp.post_chat w req0) as [data|carried]; [|done].
    destruct (WebApp.data_conversation_id data) as [cid|]; [|done].
    cbn. by destruct (Js.truthy cid).
  - set (s2 := WebApp.onChange typed (WebApp.startNewConversation s)).
    destruct (web_turn_request w' s2 Htyped Hl) as [rest Hreq].
    destruct (chat_request_body (Js.trim typed) (WebApp.currentConversation s2))
      as (fields & Hb & Hm & Hc).
    by eexists _, rest, fields.
Qed.

Lemma web_conversation_threaded_witness :
  let data := {| WebApp.data_response := "answer"; WebApp.data_sources := None;
                 WebApp.data_conversation_id := Some "c7" |} in
  let w := {| WebApp.post_chat := λ _, WebApp.Fulfilled data;
              WebApp.get_conversations := λ _, WebApp.Failed None;
              WebApp.date_user := "t0"; WebApp.date_bot := "t1" |} in
  let s := WebApp.onChange "first" WebApp.initial in
  ∃ req rest fields,
    (WebApp.sendMessage w (WebApp.onChange "second" (WebApp.sendMessage w s).2)).1
    = req :: rest
    ∧ Http.body req = Some fields
    ∧ Http.property "conversation_id" fields = Some (Http.JStr "c7").
Proof.
  intros data w s.
  destruct (proj1 (web_conversation_threaded w w s "second" eq_refl eq_refl) eq_refl)
    as (req & rest & fields & H1 & H2 & _ & H4).
  exists req, rest, fields. split_and!; [exact H1|exact H2|exact H4].
Defined.

(** ** [App]: one turn and the refresh of the conversation list *)

(** X12.  Whenever the web handler runs, it appends exactly two messages,
    the user's and a bot message, and leaves the page not loading, with an
    empty input and the connection flag untouched.  The bot message holds
    the reply and its sources, an empty list when the reply has none, or,
    when the request failed, the fixed apology without sources.  The list
    of conversations is fetched again only after a reply that carries a
    non-empty conversation ID; if that fetch fails, nothing else changes
    and the list stays as it was. *)
Theorem web_turn_and_refresh :
  ∀ (w : WebApp.world) (s : WebApp.state),
    Js.whitespace_only (WebApp.inputMessage s) = false →
    WebApp.loading s = false →
    let req0 := WebApp.chat_request (Js.trim (WebApp.inputMessage s))
                  (WebApp.currentConversation s) in
    let asked := {| WebApp.type := WebApp.user;
                    WebApp.content := Js.trim (WebApp.inputMessage s);
                    WebApp.sources := None;
                    WebApp.timestamp := WebApp.date_user w |} in
    let reqs := (WebApp.sendMessage w s).1 in
    let s' := (WebApp.sendMessage w s).2 in
    WebApp.loading s' = false
    ∧ WebApp.inputMessage s' = EmptyString
    ∧ WebApp.connected s' = WebApp.connected s
    ∧ ∃ answer,
        WebApp.messages s' = WebApp.messages s ++ [asked; answer]
        ∧ WebApp.type answer = WebApp.bot
        ∧ WebApp.timestamp answer = WebApp.date_bot w
        ∧ match WebApp.post_chat w req0 with
          | WebApp.Fulfilled data =>
              WebApp.content answer = WebApp.data_response data
              ∧ WebApp.sources answer = Some (default [] (WebApp.data_sources data))
              ∧ match WebApp.js_or (WebApp.data_conversation_id data) None with
                | Some cid =>
                    reqs = [req0; WebApp.conversations_request]
                    ∧ WebApp.conversations s'
                      = match WebApp.get_conversations w WebApp.conversations_request with
                        | WebApp.Fulfilled listed => listed
                        | WebApp.Failed _ => WebApp.conversations s
                        end
                | None =>
                    reqs = [req0] ∧ WebApp.conversations s' = WebApp.conversations s
                end
          | WebApp.Failed _ =>
              WebApp.content answer = WebApp.error_text
              ∧ WebApp.sources answer = None
              ∧ reqs = [req0]
              ∧ WebApp.conversations s' = WebApp.conversations s
              ∧ WebApp.currentConversation s' = WebApp.currentConversation s
          end.
Proof.
  intros w s Ht Hl req0 asked reqs s'. subst reqs s'.
  unfold WebApp.sendMessage. rewrite (web_guard_open s Ht Hl).
  fold req0. fold asked.
  destruct (WebApp.post_chat w req0) as [data|carried].
  - destruct (WebApp.data_conversation_id data) as [cid|]; cbn [WebApp.js_or].
    + destruct (Js.truthy cid); cbn.
      * split_and!; try done. eexists. rewrite <- app_assoc. by split_and!.
      * split_and!; try done. eexists. rewrite <- app_assoc. by split_and!.
    + cbn. split_and!; try done. eexists. rewrite <- app_assoc. by split_and!.
  - cbn. split_and!; try done. eexists. rewrite <- app_assoc. by split_and!.
Qed.

Lemma web_turn_and_refresh_witness :
  let data := {| WebApp.data_response := "answer"; WebApp.data_sources := None;
                 WebApp.data_conversation_id := Some "c7" |} in
  let w := {| WebApp.post_chat := λ _, WebApp.Fulfilled data;
              WebApp.get_conversations := λ _, WebApp.Failed None;
              WebApp.date_user := "t0"; WebApp.date_bot := "t1" |} in
  let s := WebApp.onChange "first" WebApp.initial in
  WebApp.loading (WebApp.sendMessage w s).2 = false
  ∧ WebApp.inputMessage (WebApp.sendMessage w s).2 = EmptyString.
Proof.
  intros data w s.
  destruct (web_turn_and_refresh w s eq_refl eq_refl) as (H1 & H2 & _).
  split; [exact H1|exact H2].
Defined.

(** ** [App]: opening a conversation *)

(** X13.  [loadConversation] issues one GET for the conversation.  If it
    fails the page stays as it is, still in the conversation and with the
    messages it had.  If it succeeds the page is in the requested
    conversation and shows its messages, none when the answer has no
    [messages]; the next request then carries that conversation's ID. *)
Theorem loadConversation_outcomes :
  ∀ (get_conversation : Http.request → WebApp.axios WebApp.conversation_data)
    (conversationId : string) (s : WebApp.state),
    let req := WebApp.conversation_request conversationId in
    let s' := (WebApp.loadConversation get_conversation conversationId s).2 in
    (WebApp.loadConversation get_conversation conversationId s).1 = [req]
    ∧ Http.url req = WebApp.API_BASE_URL +:+ "/conversations/" +:+ conversationId
    ∧ Http.method req = Http.GET
    ∧ (∀ carried, get_conversation req = WebApp.Failed carried → s' = s)
    ∧ (∀ data, get_conversation req = WebApp.Fulfilled data →
         WebApp.currentConversation s' = Some conversationId
         ∧ WebApp.messages s' = default [] (WebApp.data_messages data)
         ∧ WebApp.conversations s' = WebApp.conversations s
         ∧ WebApp.inputMessage s' = WebApp.inputMessage s
         ∧ WebApp.loading s' = WebApp.loading s
         ∧ ∀ (w : WebApp.world) (typed : string),
             WebApp.loading s = false → Js.whitespace_only typed = false →
             ∃ next rest fields,
               (WebApp.sendMessage w (WebApp.onChange typed s')).1 = next :: rest
               ∧ Http.body next = Some fields
               ∧ Http.property "conversation_id" fields
                 = Some (Http.JStr conversationId)).
Proof.
  intros get_conversation conversationId s req s'. subst s'.
  unfold WebApp.loadConversation. fold req. cbn [fst snd].
  split_and!; try done.
  - by intros carried ->.
  - intros data ->. split_and!; try done.
    intros w typed Hl Htyped.
    match goal with |- context [WebApp.onChange typed ?st] =>
      set (s2 := WebApp.onChange typed st) end.
    destruct (web_turn_request w s2 Htyped Hl) as [rest Hreq].
    destruct (chat_request_body (Js.trim typed) (WebApp.currentConversation s2))
      as (fields & Hb & Hm & Hc).
    by eexists _, rest, fields.
Qed.

Lemma loadConversation_outcomes_witness :
  let get : Http.request → WebApp.axios WebApp.conversation_data :=
    λ _, WebApp.Failed None in
  let s := WebApp.onChange "draft" WebApp.initial in
  (WebApp.loadConversation get "c7" s).2 = s.
Proof.
  intros get s.
  exact (proj1 (proj2 (proj2 (proj2 (loadConversation_outcomes get "c7" s))))
           None eq_refl).
Defined.

(** ** [App]: what a message shows of its sources *)

Lemma source_item_cases (source : any) :
  ∃ name,
    WebApp.source_item source = "📄 " +:+ name
    ∧ name ≠ EmptyString
    ∧ match source !! "filename", source !! "title" with
      | Some f, Some t =>
          name = if Js.truthy f then f else if Js.truthy t then t else "Unknown source"
      | Some f, None => name = if Js.truthy f then f else "Unknown source"
      | None, Some t => name = if Js.truthy t then t else "Unknown source"
      | None, None => name = "Unknown source"
      end.
Proof.
  unfold WebApp.source_item, WebApp.js_or, Js.or_else.
  destruct (source !! "filename") as [f|], (source !! "title") as [t|];
    eexists; (split; [reflexivity|]).
  - destruct f as [|c f]; cbn; [|done]. destruct t as [|c t]; cbn; done.
  - destruct f as [|c f]; cbn; done.
  - destruct t as [|c t]; cbn; done.
  - done.
Qed.

(** X14.  After a turn the bot message shows a sources block exactly when
    the reply listed at least one source, with one item per source in the
    order received.  An item names the source by its [filename], else by
    its [title], else as "Unknown source", an empty string counting as
    missing, so the name is never empty.  The user's message and the
    apology of a failed turn show no sources block. *)
Theorem web_sources_block :
  ∀ (w : WebApp.world) (s : WebApp.state),
    Js.whitespace_only (WebApp.inputMessage s) = false →
    WebApp.loading s = false →
    let req0 := WebApp.chat_request (Js.trim (WebApp.inputMessage s))
                  (WebApp.currentConversation s) in
    let area := WebApp.render_chat (WebApp.sendMessage w s).2 in
    WebApp.empty_state area = false
    ∧ WebApp.thinking area = false
    ∧ length (WebApp.shown area) = length (WebApp.messages s) + 2
    ∧ (∃ asked, WebApp.shown area !! length (WebApp.messages s) = Some asked
                ∧ WebApp.class_name asked = "message user"
                ∧ WebApp.shown_content asked = Js.trim (WebApp.inputMessage s)
                ∧ WebApp.source_items asked = None)
    ∧ (∃ answer, WebApp.shown area !! S (length (WebApp.messages s)) = Some answer
                 ∧ WebApp.class_name answer = "message bot"
                 ∧ WebApp.source_items answer
                   = match WebApp.post_chat w req0 with
                     | WebApp.Fulfilled data =>
                         match WebApp.data_sources data with
                         | Some (first :: more) =>
                             Some (WebApp.source_item <$> first :: more)
                         | _ => None
                         end
                     | WebApp.Failed _ => None
                     end)
    ∧ (∀ source : any,
         ∃ name,
           WebApp.source_item source = "📄 " +:+ name
           ∧ name ≠ EmptyString
           ∧ match source !! "filename", source !! "title" with
             | Some f, Some t =>
                 name = if Js.truthy f then f
                        else if Js.truthy t then t else "Unknown source"
             | Some f, None => name = if Js.truthy f then f else "Unknown source"
             | None, Some t => name = if Js.truthy t then t else "Unknown source"
             | None, None => name = "Unknown source"
             end).
Proof.
  intros w s Ht Hl req0 area. subst area.
  assert (∃ answer,
            WebApp.messages (WebApp.sendMessage w s).2
            = WebApp.messages s
              ++ [{| WebApp.type := WebApp.user;
                     WebApp.content := Js.trim (WebApp.inputMessage s);
                     WebApp.sources := None;
                     WebApp.timestamp := WebApp.date_user w |}; answer]
            ∧ WebApp.type answer = WebApp.bot
            ∧ WebApp.sources answer
              = match WebApp.post_chat w req0 with
                | WebApp.Fulfilled data => Some (default [] (WebApp.data_sources data))
                | WebApp.Failed _ => None
                end
            ∧ WebApp.loading (WebApp.sendMessage w s).2 = false)
    as (answer & Hmsgs & Htype & Hsrc & Hload).
  { unfold WebApp.sendMessage. rewrite (web_guard_open s Ht Hl). fold req0.
    destruct (WebApp.post_chat w req0) as [data|carried].
    - destruct (WebApp.data_conversation_id data) as [cid|].
      + destruct (Js.truthy cid); cbn; eexists; rewrite <- app_assoc; by split_and!.
      + cbn. eexists. rewrite <- app_assoc. by split_and!.
    - cbn. eexists. rewrite <- app_assoc. by split_and!. }
  destruct answer as [ty c src ts]. cbn in Htype, Hsrc. subst ty.
  unfold WebApp.render_chat.
  cbn [WebApp.empty_state WebApp.thinking WebApp.shown]. rewrite Hmsgs, Hload.
  split_and!.
  - by destruct (WebApp.messages s).
  - done.
  - rewrite length_fmap, length_app. cbn. lia.
  - eexists. rewrite list_lookup_fmap, lookup_app_r, Nat.sub_diag by lia. cbn.
    by split_and!.
  - eexists. rewrite list_lookup_fmap, lookup_app_r by lia.
    replace (S (length (WebApp.messages s)) - length (WebApp.messages s)) with 1 by lia.
    cbn. split_and!; [reflexivity|reflexivity|].
    rewrite Hsrc. destruct (WebApp.post_chat w req0) as [data|carried]; [|done].
    by destruct (WebApp.data_sources data) as [[|first more]|].
  - apply source_item_cases.
Qed.

Lemma web_sources_block_witness :
  let data := {| WebApp.data_response := "answer";
                 WebApp.data_sources := Some [{["title" := "Notes"]}];
                 WebApp.data_conversation_id := None |} in
  let w := {| WebApp.post_chat := λ _, WebApp.Fulfilled data;
              WebApp.get_conversations := λ _, WebApp.Failed None;
              WebApp.date_user := "t0"; WebApp.date_bot := "t1" |} in
  let s := WebApp.onChange "first" WebApp.initial in
  length (WebApp.shown (WebApp.render_chat (WebApp.sendMessage w s).2)) = 2.
Proof.
  intros data w s.
  exact (proj1 (proj2 (proj2 (web_sources_block w s eq_refl eq_refl)))).
Defined.

(** ** [App]: switching the conversation while a request is in flight *)

(** X15.  "New Chat" and the opening of another conversation are not held
    back while a request is in flight, and they do not end the loading.
    The reply that arrives afterwards is appended to whatever the page
    then shows: it stands alone in the new chat, or follows the messages of
    the conversation that was opened.  If the reply carries a non-empty
    conversation ID the page is put back into that conversation; otherwise
    it stays where the user went. *)
Theorem web_switch_in_flight :
  ∀ (w : WebApp.world) (req : Http.request) (s1 : WebApp.state),
    let landed (s2 : WebApp.state) (shown_before : list WebApp.message)
               (went_to : option string) :=
      WebApp.loading s2 = false
      ∧ (∃ answer, WebApp.messages s2 = shown_before ++ [answer]
                   ∧ WebApp.type answer = WebApp.bot)
      ∧ WebApp.currentConversation s2
        = match WebApp.post_chat w req with
          | WebApp.Fulfilled data =>
              match WebApp.js_or (WebApp.data_conversation_id data) None with
              | Some cid => Some cid
              | None => went_to
              end
          | WebApp.Failed _ => went_to
          end in
    WebApp.loading (WebApp.startNewConversation s1) = WebApp.loading s1
    ∧ landed (WebApp.sendMessage_settle w req (WebApp.startNewConversation s1)).2 [] None
    ∧ ∀ get_conversation conversationId data,
        get_conversation (WebApp.conversation_request conversationId)
          = WebApp.Fulfilled data →
        let s1' := (WebApp.loadConversation get_conversation conversationId s1).2 in
        WebApp.loading s1' = WebApp.loading s1
        ∧ landed (WebApp.sendMessage_settle w req s1').2
            (default [] (WebApp.data_messages data)) (Some conversationId).
Proof.
  intros w req s1 landed. subst landed. cbv beta. split_and!; try done.
  - by destruct (web_settle_conversation w req (WebApp.startNewConversation s1)).
  - unfold WebApp.sendMessage_settle.
    destruct (WebApp.post_chat w req) as [data|carried]; [|by eexists].
    destruct (WebApp.js_or _ _); [|by eexists].
    destruct (WebApp.loadConversations w _). by eexists.
  - by destruct (web_settle_conversation w req (WebApp.startNewConversation s1)).
  - intros get_conversation conversationId data Hget s1'. subst s1'.
    unfold WebApp.loadConversation. cbn [snd]. rewrite Hget.
    split_and!; try done.
    + match goal with |- context [WebApp.sendMessage_settle w req ?st] =>
        by destruct (web_settle_conversation w req st) end.
    + unfold WebApp.sendMessage_settle.
      destruct (WebApp.post_chat w req) as [d|carried]; [|by eexists].
      destruct (WebApp.js_or _ _); [|by eexists].
      destruct (WebApp.loadConversations w _). by eexists.
    + match goal with |- context [WebApp.sendMessage_settle w req ?st] =>
        by destruct (web_settle_conversation w req st) end.
Qed.

Lemma web_switch_in_flight_witness :
  let data := {| WebApp.data_response := "answer"; WebApp.data_sources := None;
                 WebApp.data_conversation_id := Some "c7" |} in
  let w := {| WebApp.post_chat := λ _, WebApp.Fulfilled data;
              WebApp.get_conversations := λ _, WebApp.Failed None;
              WebApp.date_user := "t0"; WebApp.date_bot := "t1" |} in
  let loaded := {| WebApp.data_messages := None |} in
  let get : Http.request → WebApp.axios WebApp.conversation_data :=
    λ _, WebApp.Fulfilled loaded in
  let s1 := (WebApp.sendMessage_begin w (WebApp.onChange "first" WebApp.initial)).2 in
  WebApp.loading (WebApp.loadConversation get "c3" s1).2 = true.
Proof.
  intros data w loaded get s1.
  exact (proj1 (proj2 (proj2
           (web_switch_in_flight w (WebApp.chat_request "first" None) s1))
                  get "c3" loaded eq_refl)).
Defined.

(** ** [ApiService]: a network failure *)

Section ApiServiceRejection.
Import Http.
Context {T U : Type}.

Lemma rejected_fetch (fetch : request → fetched T) (req : request)
    (k : response T → outcome U) :
  fetch req = Rejected → (response ← await_fetch fetch req; k response) = Throws NetworkError.
Proof. intros H. unfold await_fetch. by rewrite H. Qed.

End ApiServiceRejection.

(** X16.  When the [fetch] of a method rejects, as on a network failure,
    the method rejects as well, before any look at a response: none of the
    eight methods returns a value, and the error is the one of [fetch], not
    an "HTTP error! status" one. *)
Theorem ApiService_network_failure (this : ApiService.t) :
  (∀ fetch m,
     fetch (ApiService.sendMessage_request this m) = Http.Rejected →
     (ApiService.sendMessage this fetch m).2 = Http.Throws Http.NetworkError)
  ∧ (∀ fetch,
     fetch (ApiService.get (ApiService.baseUrl this +:+ "/conversations"))
       = Http.Rejected →
     (ApiService.getConversations this fetch).2 = Http.Throws Http.NetworkError)
  ∧ (∀ fetch id,
     fetch (ApiService.get (ApiService.baseUrl this +:+ "/conversations/" +:+ id))
       = Http.Rejected →
     (ApiService.getConversation this fetch id).2 = Http.Throws Http.NetworkError)
  ∧ (∀ (T : Type) (fetch : Http.request → Http.fetched T) id,
     fetch {| Http.url := ApiService.baseUrl this +:+ "/conversations/" +:+ id;
              Http.method := Http.DELETE; Http.headers := [];
              Http.body := None |} = Http.Rejected →
     (ApiService.deleteConversation this fetch id).2 = Http.Throws Http.NetworkError)
  ∧ (∀ (T : Type) (fetch : Http.request → Http.fetched T) path incremental,
     fetch (ApiService.triggerIngestion_request this path incremental) = Http.Rejected →
     (ApiService.triggerIngestion this fetch path incremental).2
     = Http.Throws Http.NetworkError)
  ∧ (∀ fetch,
     fetch (ApiService.get (ApiService.baseUrl this +:+ "/ingest/status"))
       = Http.Rejected →
     (ApiService.getIngestionStatus this fetch).2 = Http.Throws Http.NetworkError)
  ∧ (∀ fetch,
     fetch (ApiService.get (ApiService.baseUrl this +:+ "/stats")) = Http.Rejected →
     (ApiService.getStats this fetch).2 = Http.Throws Http.NetworkError)
  ∧ (∀ fetch,
     fetch (ApiService.get (ApiService.baseUrl this +:+ "/health")) = Http.Rejected →
     (ApiService.checkHealth this fetch).2 = Http.Throws Http.NetworkError).
Proof.
  split_and!; intros;
    match goal with
    | H : ?fetch ?req = Http.Rejected |- _ => exact (rejected_fetch fetch req _ H)
    end.
Qed.

Lemma ApiService_network_failure_witness :
  (ApiService.getStats ApiService.apiService (λ _, Http.Rejected)).2
  = Http.Throws Http.NetworkError.
Proof.
  apply (proj1 (proj2 (proj2 (proj2 (proj2 (proj2 (proj2
    (ApiService_network_failure ApiService.apiService)))))))).
  reflexivity.
Defined.
